(** * movie_rater: the rating and selection engine of [movie_rater.py]

    A shallow embedding of the pure core of the script: the string helpers
    it relies on, the cleaning done by [load_movies], the genre sets and the
    pair sampler, the Elo update, the vote handler (in-memory assignment and
    the row-by-row write to the sheet) and the two leaderboards.

    Conventions.
    - Python [str] is [string] (8-bit characters): [str.strip], [str.lower]
      and [str.split(",")] are written out below for that alphabet.
    - Python [float] arithmetic in [update_elo] is read as arithmetic over
      the real numbers ([R], [Rpower]); [round] is round-half-to-even.
    - [pandas.Series.str.contains(pat, case=False)] searches for [pat] as a
      regular expression.  The fragment embedded here is: ordinary
      characters and the dot.  A pattern using any other regular-expression
      syntax is outside the fragment and yields [None].
    - [DataFrame.sample] draws from a source of random numbers, which is an
      explicit argument; the worksheet is an explicit state. *)

From Stdlib Require Import ZArith List String Ascii DecimalString Bool Lia.
From Stdlib Require Import Reals Lra Sorted Permutation.
From stdpp Require Import gmap strings list.
Import ListNotations.

Open Scope Z_scope.

(** ** Strings as Python has them *)

Module PyStr.

(** [str.isspace] on one character, for code points below 256 that
    [str.strip()] removes: TAB..CR, FS..US and SPACE. *)
Definition is_space (c : ascii) : bool :=
  let n := N_of_ascii c in
  (((9 <=? n) && (n <=? 13)) || ((28 <=? n) && (n <=? 32)))%N.

Definition lower_ascii (c : ascii) : ascii :=
  let n := N_of_ascii c in
  if ((65 <=? n) && (n <=? 90))%N then ascii_of_N (n + 32) else c.

(** [s.lower()] *)
Fixpoint lower (s : string) : string :=
  match s with
  | EmptyString => EmptyString
  | String c t => String (lower_ascii c) (lower t)
  end.

(** [s.lstrip()] *)
Fixpoint lstrip (s : string) : string :=
  match s with
  | EmptyString => EmptyString
  | String c t => if is_space c then lstrip t else s
  end.

(** [s.rstrip()] *)
Fixpoint rstrip (s : string) : string :=
  match s with
  | EmptyString => EmptyString
  | String c t =>
      match rstrip t with
      | EmptyString => if is_space c then EmptyString else String c EmptyString
      | t' => String c t'
      end
  end.

(** [s.strip()] *)
Definition strip (s : string) : string := rstrip (lstrip s).

(** [s.split(",")]: never empty, one more piece than there are commas. *)
Fixpoint split_comma (s : string) : list string :=
  match s with
  | EmptyString => [EmptyString]
  | String c t =>
      if Ascii.eqb c "," then EmptyString :: split_comma t
      else match split_comma t with
           | [] => [String c EmptyString]
           | p :: ps => String c p :: ps
           end
  end.

(** [p] is a prefix of [s]. *)
Fixpoint starts_with (p s : string) : bool :=
  match p, s with
  | EmptyString, _ => true
  | String a p', String b s' => Ascii.eqb a b && starts_with p' s'
  | String _ _, EmptyString => false
  end.

(** [p in s] *)
Fixpoint is_substring (p s : string) : bool :=
  starts_with p s ||
  match s with
  | EmptyString => false
  | String _ s' => is_substring p s'
  end.

(** [s] contains [g] as a case-insensitive substring. *)
Definition ci_substring (g s : string) : bool :=
  is_substring (lower g) (lower s).

(** *** The fragment of [re] used through [str.contains] *)

Inductive re_atom : Type :=
| RLit (c : ascii)   (* an ordinary character *)
| RAny.              (* the dot: any character but a newline *)

(** Characters with a special meaning in a pattern. *)
Definition re_special : list ascii :=
  list_ascii_of_string ".^$*+?{}[]\|()".

Definition is_special (c : ascii) : bool :=
  existsb (Ascii.eqb c) re_special.

(** [re.compile(pat)] on the fragment. *)
Fixpoint re_compile (pat : string) : option (list re_atom) :=
  match pat with
  | EmptyString => Some []
  | String c t =>
      if Ascii.eqb c "." then option_map (cons RAny) (re_compile t)
      else if is_special c then None
      else option_map (cons (RLit c)) (re_compile t)
  end.

(** One atom against one character under [re.IGNORECASE]. *)
Definition atom_match (a : re_atom) (c : ascii) : bool :=
  match a with
  | RLit x => Ascii.eqb (lower_ascii x) (lower_ascii c)
  | RAny => negb (Ascii.eqb c "010")
  end.

Fixpoint match_here (re : list re_atom) (s : string) : bool :=
  match re, s with
  | [], _ => true
  | a :: re', String c s' => atom_match a c && match_here re' s'
  | _ :: _, EmptyString => false
  end.

(** [regex.search(s) is not None] *)
Fixpoint re_search (re : list re_atom) (s : string) : bool :=
  match_here re s ||
  match s with
  | EmptyString => false
  | String _ s' => re_search re s'
  end.

(** [Series.str.contains(pat, case=False, na=False)] on one value. *)
Definition str_contains (pat s : string) : option bool :=
  option_map (fun re => re_search re s) (re_compile pat).

(** [sorted] on strings: insertion into an ascending list, by code
    points. *)
Fixpoint insert_sorted (x : string) (l : list string) : list string :=
  match l with
  | [] => [x]
  | y :: l' => if String.leb x y then x :: l else y :: insert_sorted x l'
  end.

Definition sorted (l : list string) : list string :=
  fold_right insert_sorted [] l.

End PyStr.

Import PyStr.

(** ** The record collection *)

(** One row as [worksheet.get_all_records()] hands it over; every cell is
    given by its [str(...)], the [elo] cell by what
    [pd.to_numeric(..., errors="coerce")] makes of it ([None]: missing
    column or not a number). *)
Record RawRow : Type := mkRaw {
  raw_Title : string;
  raw_director : string;
  raw_genres : string;
  raw_poster_url : string;
  raw_elo : option Z;
  raw_other : list string
}.

(** One row of [df_movies]. [other] stands for the columns the engine never
    looks at (Released, Date_Viewed, Platform, ...). *)
Record Movie : Type := mkMovie {
  Title : string;
  director : string;
  genres : string;
  poster_url : string;
  elo : Z;
  other : list string
}.

Definition clean_row (r : RawRow) : Movie :=
  {| Title := strip (raw_Title r);
     director := strip (raw_director r);
     genres := strip (raw_genres r);
     poster_url := strip (raw_poster_url r);
     elo := match raw_elo r with Some z => z | None => 1500 end;
     other := raw_other r |}.

(** [load_movies], from the rows read; an empty sheet gives the empty
    frame in both branches. *)
Definition load_movies (data : list RawRow) : list Movie :=
  List.map clean_row data.

(** ** Genre overlap and the pair sampler *)

Definition get_genre_set (genres_str : string) : gset string :=
  list_to_set
    (List.map (fun g => lower (strip g))
       (List.filter (fun g => negb (String.eqb (strip g) EmptyString))
          (split_comma genres_str))).

(** [df.sample(2).reset_index(drop=True)] from two random numbers: two
    rows at distinct positions; [None] is the [ValueError] of a frame with
    fewer than two rows. *)
Definition sample2 (df : list Movie) (r : nat * nat) : option (Movie * Movie) :=
  let n := length df in
  if (n <? 2)%nat then None
  else
    let i := (fst r mod n)%nat in
    let j := ((i + 1 + snd r mod (n - 1)) mod n)%nat in
    match df !! i, df !! j with
    | Some a, Some b => Some (a, b)
    | _, _ => None
    end.

(** [if g1 & g2] *)
Definition genres_overlap (drawn : Movie * Movie) : bool :=
  let g1 := get_genre_set (genres (fst drawn)) in
  let g2 := get_genre_set (genres (snd drawn)) in
  bool_decide (g1 ∩ g2 ≠ ∅).

(** The [for _ in range(attempts)] loop followed by the fallback draw;
    [draws k] is the random input of the [k]-th call of [sample], [i] the
    number of calls made so far. *)
Fixpoint sample_loop (df : list Movie) (draws : nat -> nat * nat)
    (i attempts : nat) : option (Movie * Movie) :=
  match attempts with
  | O => sample2 df (draws i)
  | S attempts' =>
      match sample2 df (draws i) with
      | None => None
      | Some drawn =>
          if genres_overlap drawn then Some drawn
          else sample_loop df draws (S i) attempts'
      end
  end.

Definition sample_movie_pair (df : list Movie) (draws : nat -> nat * nat)
    : option (Movie * Movie) :=
  sample_loop df draws 0 50.

(** ** The Elo update *)

(** [round(x)] for a float: to the nearest integer, ties to even. *)
Definition py_round (x : R) : Z :=
  let f := Int_part x in
  let r := (x - IZR f)%R in
  if Rlt_dec r (1/2) then f
  else if Rlt_dec (1/2) r then f + 1
  else if Z.even f then f else f + 1.

Definition update_elo (winner_elo loser_elo k : Z) : Z * Z :=
  let expected_win :=
    (1 / (1 + Rpower 10 (IZR (loser_elo - winner_elo) / 400)))%R in
  let new_winner_elo := (IZR winner_elo + IZR k * (1 - expected_win))%R in
  let new_loser_elo := (IZR loser_elo - IZR k * (1 - expected_win))%R in
  (py_round new_winner_elo, py_round new_loser_elo).

(** The default of the keyword argument [k]. *)
Definition default_k : Z := 32.



(** ** The vote handler *)

Definition set_elo (m : Movie) (v : Z) : Movie :=
  {| Title := Title m;
     director := director m;
     genres := genres m;
     poster_url := poster_url m;
     elo := v;
     other := other m |}.

(** [df.loc[df["Title"].str.lower() == key, "elo"] = v] *)
Definition loc_assign (df : list Movie) (key : string) (v : Z) : list Movie :=
  List.map
    (fun m => if String.eqb (lower (Title m)) key then set_elo m v else m) df.

(** Lines 126 and 127: the winner's rows first, the loser's rows second. *)
Definition assign_ratings (df : list Movie) (winner loser : Movie)
    (new_winner_elo new_loser_elo : Z) : list Movie :=
  loc_assign
    (loc_assign df (lower (Title winner)) new_winner_elo)
    (lower (Title loser)) new_loser_elo.

(** The worksheet: its cells as [get_all_values()] returns them, the
    outcome of the [update_cell] calls still to come ([Some e]: that call
    raises [e]; no entry: it goes through) and the calls made so far, the
    latest first. *)
Record Worksheet : Type := mkSheet {
  cells : list (list string);
  faults : list (option string);
  calls : list (nat * nat * Z)
}.

(** A computation on the worksheet that may raise. *)
Definition Sheet (A : Type) : Type := Worksheet -> Worksheet * (string + A).

Definition ret {A : Type} (a : A) : Sheet A := fun ws => (ws, inr a).

Definition raise {A : Type} (e : string) : Sheet A := fun ws => (ws, inl e).

Definition bind {A B : Type} (m : Sheet A) (k : A -> Sheet B) : Sheet B :=
  fun ws =>
    match m ws with
    | (ws', inl e) => (ws', inl e)
    | (ws', inr a) => k a ws'
    end.

Definition and_then {B : Type} (m : Sheet unit) (k : Sheet B) : Sheet B :=
  bind m (fun _ => k).

(** [worksheet.update_cell(row, col, value)], rows and columns counted
    from 1.  A position outside the grid leaves the cells as they are. *)
Definition update_cell (row col : nat) (value : Z) : Sheet unit :=
  fun ws =>
    let logged := (row, col, value) :: calls ws in
    match faults ws with
    | Some e :: rest =>
        ({| cells := cells ws; faults := rest; calls := logged |}, inl e)
    | other_faults =>
        ({| cells :=
              alter (fun r => <[(col - 1)%nat := NilZero.string_of_int (Z.to_int value)]> r)
                (row - 1)%nat (cells ws);
            faults := tail other_faults;
            calls := logged |}, inr tt)
    end.

(** [when c m]: an [if] without [else]. *)
Definition when (c : bool) (m : Sheet unit) : Sheet unit :=
  if c then m else ret tt.

(** The body of the [try]: the loop over [enumerate(sheet_data[1:], start=i)]. *)
Fixpoint persist_rows (i : nat) (rows : list (list string))
    (title_idx elo_idx : nat) (winner loser : Movie)
    (new_winner_elo new_loser_elo : Z) : Sheet unit :=
  match rows with
  | [] => ret tt
  | row :: rest =>
      match row !! title_idx with
      | None => raise "IndexError"
      | Some cell =>
          let row_title := lower (strip cell) in
          and_then
            (when (String.eqb row_title (lower (strip (Title winner))))
               (update_cell i (elo_idx + 1) new_winner_elo))
            (and_then
               (when (String.eqb row_title (lower (strip (Title loser))))
                  (update_cell i (elo_idx + 1) new_loser_elo))
               (persist_rows (S i) rest title_idx elo_idx winner loser
                  new_winner_elo new_loser_elo))
      end
  end.

(** [headers.index(x)]; [None] is the [ValueError]. *)
Fixpoint index_of (x : string) (l : list string) : option nat :=
  match l with
  | [] => None
  | y :: l' => if String.eqb y x then Some O else option_map S (index_of x l')
  end.

(** What the handler shows: [st.success] or [st.error]. *)
Inductive Shown : Type :=
| ShowSuccess (title : string)
| ShowError (cause : string).

Record Handled : Type := mkHandled {
  df_after : list Movie;
  ws_after : Worksheet;
  shown : Shown
}.

(** Lines 129 to 145 for ratings already computed: the header lookup and
    the [try]; [inl] is an exception that leaves the handler (raised
    outside the [try]). *)
Definition persist_vote (ws : Worksheet) (winner loser : Movie)
    (new_winner_elo new_loser_elo : Z) : string + (Worksheet * Shown) :=
  let sheet_data := cells ws in
  match sheet_data with
  | [] => inl "IndexError"
  | header_row :: data_rows =>
      let headers := List.map (fun h => lower (strip h)) header_row in
      match index_of "title" headers, index_of "elo" headers with
      | Some title_idx, Some elo_idx =>
          match persist_rows 2 data_rows title_idx elo_idx winner loser
                  new_winner_elo new_loser_elo ws with
          | (ws', inr _) => inr (ws', ShowSuccess (Title winner))
          | (ws', inl e) => inr (ws', ShowError e)
          end
      | _, _ => inl "ValueError"
      end
  end.

(** Line 123. *)
Definition new_ratings (winner loser : Movie) : Z * Z :=
  update_elo (elo winner) (elo loser) default_k.

(** Lines 123 to 127: the collection after the in-memory update. *)
Definition vote_in_memory (df : list Movie) (winner loser : Movie) : list Movie :=
  assign_ratings df winner loser
    (fst (new_ratings winner loser)) (snd (new_ratings winner loser)).

(** Lines 121 to 145: the vote handler. *)
Definition process_vote (df : list Movie) (ws : Worksheet) (winner loser : Movie)
    : string + Handled :=
  let '(new_winner_elo, new_loser_elo) := new_ratings winner loser in
  let df' := assign_ratings df winner loser new_winner_elo new_loser_elo in
  match persist_vote ws winner loser new_winner_elo new_loser_elo with
  | inl e => inl e
  | inr (ws', msg) => inr {| df_after := df'; ws_after := ws'; shown := msg |}
  end.

(** ** The leaderboards *)

(** [df[mask]] *)
Fixpoint boolean_index (df : list Movie) (mask : list bool) : list Movie :=
  match df, mask with
  | m :: df', b :: mask' =>
      if b then m :: boolean_index df' mask' else boolean_index df' mask'
  | _, _ => []
  end.

(** [df["genres"].str.contains(pat, case=False, na=False)] *)
Definition genres_contains (df : list Movie) (pat : string) : option (list bool) :=
  option_map (fun re => List.map (fun m => re_search re (genres m)) df)
    (re_compile pat).

(** [.groupby("Title", as_index=False).first()]: one row per title, the
    groups in ascending order of title, each represented by its first
    row. *)
Definition groupby_first (df : list Movie) : list Movie :=
  omap (fun t => List.find (fun m => String.eqb (Title m) t) df)
    (sorted (remove_dups (List.map Title df))).

(** [.sort_values(by, ascending=False)]; rows with equal keys keep their
    order. *)
Fixpoint insert_desc {A : Type} (key : A -> Z) (x : A) (l : list A) : list A :=
  match l with
  | [] => [x]
  | y :: l' => if key y <=? key x then x :: l else y :: insert_desc key x l'
  end.

Definition sort_values {A : Type} (key : A -> Z) (l : list A) : list A :=
  fold_right (insert_desc key) [] l.

(** A row of the displayed leaderboard:
    [[["Title","director","genres","elo"]]]. *)
Record Entry : Type := mkEntry {
  e_Title : string;
  e_director : string;
  e_genres : string;
  e_elo : Z
}.

Definition columns (m : Movie) : Entry :=
  {| e_Title := Title m; e_director := director m;
     e_genres := genres m; e_elo := elo m |}.

Definition leaderboard_df (df_movies : list Movie) (selected_genre : string)
    : option (list Entry) :=
  if String.eqb selected_genre "Overall" then
    Some (sort_values e_elo (List.map columns (groupby_first df_movies)))
  else
    option_map
      (fun mask =>
         sort_values e_elo
           (List.map columns (groupby_first (boolean_index df_movies mask))))
      (genres_contains df_movies selected_genre).

(** The genre labels iterated over by [get_top_movies_by_genre]. *)
Definition genre_labels (df : list Movie) : list string :=
  sorted
    (elements
       (list_to_set
          (flat_map (fun m => List.map strip (split_comma (genres m))) df)
        : gset string)).

Fixpoint top_movies_loop (df : list Movie) (labels : list string)
    : option (list (string * Movie)) :=
  match labels with
  | [] => Some []
  | g :: labels' =>
      match genres_contains df g with
      | None => None
      | Some mask =>
          let genre_df := sort_values elo (groupby_first (boolean_index df mask)) in
          option_map
            (fun top_movies =>
               match genre_df with
               | [] => top_movies
               | m :: _ => (g, m) :: top_movies
               end)
            (top_movies_loop df labels')
      end
  end.

Definition get_top_movies_by_genre (df : list Movie) : option (list (string * Movie)) :=
  top_movies_loop df (genre_labels df).

(** ** Predicates of the specification *)

(** The identity key of a record: its title trimmed and lowercased. *)
Definition normalized (t : string) : string := lower (strip t).

(** Every two rows with the same normalized title carry the same rating. *)
Definition same_rating_per_title (df : list Movie) : bool :=
  forallb
    (fun a =>
       forallb
         (fun b =>
            implb (String.eqb (normalized (Title a)) (normalized (Title b)))
                  (elo a =? elo b))
         df)
    df.

(** The pattern has no character with a special meaning in [re]. *)
Fixpoint no_special (pat : string) : bool :=
  match pat with
  | EmptyString => true
  | String c t => negb (is_special c) && no_special t
  end.

(** The [k]-th draw of the sampler gives two rows with a common genre. *)
Definition draw_overlaps (df : list Movie) (draws : nat -> nat * nat) (k : nat) : bool :=
  match sample2 df (draws k) with
  | Some drawn => genres_overlap drawn
  | None => false
  end.

(** Some row of [df] has a genre string matched by [g]. *)
Definition has_match (df : list Movie) (g : string) : bool :=
  existsb
    (fun m => match str_contains g (genres m) with Some b => b | None => false end)
    df.

(** Between two states of the worksheet no [update_cell] call raised: the
    outcomes consumed were all successes. *)
Definition quiet (ws ws' : Worksheet) : Prop :=
  exists pre,
    Forall (eq None) pre /\
    faults ws = pre ++ faults ws' /\
    (length (calls ws') = (length (calls ws) + length pre)%nat \/ faults ws' = []).

(** Between two states of the worksheet the calls went through until one
    raised [e], and that call was the last one made. *)
Definition failed_with (e : string) (ws ws' : Worksheet) : Prop :=
  exists pre,
    Forall (eq None) pre /\
    faults ws = pre ++ Some e :: faults ws' /\
    length (calls ws') = (length (calls ws) + length pre + 1)%nat.

(** What lines 126 and 127 do to one row. *)
Definition rate_row (wkey lkey : string) (nw nl : Z) (m : Movie) : Movie :=
  let m1 := if String.eqb (lower (Title m)) wkey then set_elo m nw else m in
  if String.eqb (lower (Title m1)) lkey then set_elo m1 nl else m1.

(** The first row of [l] has the greatest key. *)
Definition head_is_top {A : Type} (key : A -> Z) (l : list A) : Prop :=
  match l with
  | [] => True
  | m :: rest => forall x, In x rest -> key x <= key m
  end.

(** The entry [(g, m)] is the best-rated film of genre [g]: a row of the
    collection matched by [g], no lower in rating than the first matched
    row of any title. *)
Definition champion (df : list Movie) (gm : string * Movie) : Prop :=
  let g := fst gm in
  let m := snd gm in
  In m df /\ str_contains g (genres m) = Some true /\
  forall r, In r df -> str_contains g (genres r) = Some true ->
    exists r', In r' df /\ Title r' = Title r /\
               str_contains g (genres r') = Some true /\ elo r' <= elo m.

(** The call [(r, c, v)] of [update_cell] writes to the rating column of
    a row (numbered from [i]) whose title cell is the winner's title with
    the winner's new rating, or the loser's with the loser's. *)
Definition targeted (i : nat) (rows : list (list string)) (title_idx elo_idx : nat)
    (winner loser : Movie) (new_winner_elo new_loser_elo : Z)
    (call : nat * nat * Z) : Prop :=
  let r := fst (fst call) in
  let c := snd (fst call) in
  let v := snd call in
  c = (elo_idx + 1)%nat /\ (i <= r)%nat /\
  exists row cell,
    rows !! (r - i)%nat = Some row /\ row !! title_idx = Some cell /\
    ((normalized cell = normalized (Title winner) /\ v = new_winner_elo) \/
     (normalized cell = normalized (Title loser) /\ v = new_loser_elo)).

(** Lines 156 to 163: the genres offered by the filter box. *)
Definition all_genres (df : list Movie) : gset string :=
  list_to_set
    (List.filter (fun genre => negb (String.eqb genre EmptyString))
       (flat_map (fun m => List.map strip (split_comma (genres m))) df)).

Definition genre_options (df : list Movie) : list string :=
  "Overall"%string :: sorted (elements (all_genres df)).

(** A sheet row after a vote that was written through: the rating cell
    holds the decimal of the winner's new rating when the title cell is
    the winner's title, of the loser's when it is the loser's (the loser's
    write comes second). *)
Definition saved_row (title_idx elo_idx : nat) (winner loser : Movie)
    (new_winner_elo new_loser_elo : Z) (row : list string) : list string :=
  match row !! title_idx with
  | None => row
  | Some cell =>
      let row1 :=
        if String.eqb (normalized cell) (normalized (Title winner))
        then <[elo_idx := NilZero.string_of_int (Z.to_int new_winner_elo)]> row
        else row in
      if String.eqb (normalized cell) (normalized (Title loser))
      then <[elo_idx := NilZero.string_of_int (Z.to_int new_loser_elo)]> row1
      else row1
  end.

(** Lines 85 to 90: the genres the two films on display share, sorted, or
    [None] for the fallback message. *)
Definition shared_genres_banner (movie1 movie2 : Movie) : option (list string) :=
  let shared_genres := get_genre_set (genres movie1) ∩ get_genre_set (genres movie2) in
  if bool_decide (shared_genres ≠ ∅) then Some (sorted (elements shared_genres))
  else None.

(** ** Sample data *)

(** Two viewings of one film, entered with different case and spacing,
    and one other film. *)
Definition two_viewings : list RawRow :=
  [ mkRaw "Heat" "Mann" "Crime,Drama" "" (Some 1500) ["2023"];
    mkRaw " heat " "Mann" "Crime" "" (Some 1500) ["2024"];
    mkRaw "Big" "Marshall" "Comedy" "" None ["2024"] ].

Definition first_viewing : Movie :=
  clean_row (mkRaw "Heat" "Mann" "Crime,Drama" "" (Some 1500) ["2023"]).

Definition second_viewing : Movie :=
  clean_row (mkRaw " heat " "Mann" "Crime" "" (Some 1500) ["2024"]).

(** A sheet with the three rows of [two_viewings] and a write that fails
    at the second call. *)
Definition failing_sheet : Worksheet :=
  {| cells := [ ["Title"; "director"; "elo"];
                ["Heat"; "Mann"; "1500"];
                [" heat "; "Mann"; "1500"];
                ["Big"; "Marshall"; "1500"] ];
     faults := [None; Some "APIError"; None];
     calls := [] |}.

(** Three films without a common genre, and a source of random numbers
    whose first fifty draws give the first two of them and whose later
    draws give the last two. *)
Definition disjoint_films : list Movie :=
  [ mkMovie "Alien" "Scott" "Horror" "" 1500 [];
    mkMovie "Big" "Marshall" "Comedy" "" 1500 [];
    mkMovie "Casablanca" "Curtiz" "Romance" "" 1500 [] ].

Definition late_change (k : nat) : nat * nat :=
  if (k <? 50)%nat then (0, 0)%nat else (1, 0)%nat.


(** The three films of the example of the specification. *)
Definition film_A : Movie := mkMovie "A" "" "Action,Drama" "" 1500 [].

Definition film_B : Movie := mkMovie "B" "" "Action" "" 1600 [].

Definition film_C : Movie := mkMovie "C" "" "Comedy" "" 1700 [].

(** The sheet of [failing_sheet] with no write failing. *)
Definition sound_sheet : Worksheet :=
  {| cells := cells failing_sheet; faults := []; calls := [] |}.


(** ** Facts about the string helpers *)

Lemma rstrip_idempotent (s : string) : rstrip (rstrip s) = rstrip s.
Proof.
  induction s as [|c t IH]; simpl; [reflexivity|].
  destruct (rstrip t) as [|d t'] eqn:Ht.
  - destruct (is_space c) eqn:Hc; simpl; [reflexivity|].
    rewrite Hc. reflexivity.
  - change (rstrip (String c (String d t')))
      with (match rstrip (String d t') with
            | EmptyString => if is_space c then EmptyString else String c EmptyString
            | t'' => String c t''
            end).
    rewrite IH. reflexivity.
Qed.

Lemma lstrip_head (s : string) :
  lstrip s = EmptyString \/
  exists c t, lstrip s = String c t /\ is_space c = false.
Proof.
  induction s as [|c t IH]; simpl; [left; reflexivity|].
  destruct (is_space c) eqn:Hc; [exact IH|].
  right. exists c, t. split; [reflexivity|exact Hc].
Qed.

Lemma rstrip_keeps_head (c : ascii) (t : string) :
  is_space c = false -> exists t', rstrip (String c t) = String c t'.
Proof.
  intros Hc. simpl. destruct (rstrip t) as [|d t'].
  - rewrite Hc. exists EmptyString. reflexivity.
  - exists (String d t'). reflexivity.
Qed.

Lemma strip_idempotent (s : string) : strip (strip s) = strip s.
Proof.
  unfold strip.
  destruct (lstrip_head s) as [H|(c & t & H & Hc)]; rewrite H.
  - reflexivity.
  - destruct (rstrip_keeps_head c t Hc) as [t' Ht'].
    rewrite Ht'. simpl lstrip. rewrite Hc, <- Ht'.
    apply rstrip_idempotent.
Qed.

Lemma normalized_stripped (s : string) : normalized (strip s) = lower (strip s).
Proof. unfold normalized. rewrite strip_idempotent. reflexivity. Qed.

Lemma is_special_dot (c : ascii) : is_special c = false -> Ascii.eqb c "." = false.
Proof.
  intros H. destruct (Ascii.eqb c ".") eqn:E; [|reflexivity].
  apply Ascii.eqb_eq in E. subst c. discriminate H.
Qed.

Lemma re_compile_literal (g : string) :
  no_special g = true ->
  exists re, re_compile g = Some re /\
             forall s, match_here re s = starts_with (lower g) (lower s).
Proof.
  induction g as [|c t IH]; simpl; intros H.
  - exists []. split; [reflexivity|]. intros s. reflexivity.
  - apply andb_prop in H as [Hc Ht]. apply negb_true_iff in Hc.
    destruct (IH Ht) as (re & Hre & Hm).
    rewrite (is_special_dot c Hc), Hc, Hre. simpl.
    exists (RLit c :: re). split; [reflexivity|].
    intros [|d s']; simpl; [reflexivity|].
    rewrite Hm. reflexivity.
Qed.

Lemma re_search_literal (re : list re_atom) (g s : string) :
  (forall s', match_here re s' = starts_with (lower g) (lower s')) ->
  re_search re s = ci_substring g s.
Proof.
  intros Hm. unfold ci_substring.
  induction s as [|d s' IH].
  - simpl. rewrite Hm. simpl. reflexivity.
  - simpl re_search. rewrite Hm, IH. reflexivity.
Qed.

(** ** The Elo update *)

Section Rounding.

Local Open Scope R_scope.

Lemma py_round_near (x : R) : x - 1/2 <= IZR (py_round x) <= x + 1/2.
Proof.
  unfold py_round.
  destruct (base_Int_part x) as [Hlo Hhi].
  set (f := Int_part x) in *.
  destruct (Rlt_dec (x - IZR f) (1/2)); [lra|].
  destruct (Rlt_dec (1/2) (x - IZR f)).
  - rewrite plus_IZR. lra.
  - destruct (Z.even f); [lra|]. rewrite plus_IZR. lra.
Qed.

Lemma py_round_ge (x : R) (n : Z) : IZR n - 1/2 < x -> (n <= py_round x)%Z.
Proof.
  intros H. destruct (py_round_near x) as [Hlo _].
  assert (Hlt : IZR (n - 1) < IZR (py_round x)) by (rewrite minus_IZR; lra).
  apply lt_IZR in Hlt. lia.
Qed.

Lemma py_round_le (x : R) (n : Z) : x < IZR n + 1/2 -> (py_round x <= n)%Z.
Proof.
  intros H. destruct (py_round_near x) as [_ Hhi].
  assert (Hlt : IZR (py_round x) < IZR (n + 1)) by (rewrite plus_IZR; lra).
  apply lt_IZR in Hlt. lia.
Qed.

Lemma py_round_between (x : R) (n : Z) :
  IZR n - 1/2 < x < IZR n + 1/2 -> py_round x = n.
Proof.
  intros [Hlo Hhi].
  pose proof (py_round_ge x n Hlo). pose proof (py_round_le x n Hhi). lia.
Qed.


Lemma Rpower_10_even : Rpower 10 (IZR (1500 - 1500) / 400) = 1.
Proof.
  change (1500 - 1500)%Z with 0%Z.
  replace (0 / 400) with 0 by lra.
  apply Rpower_O. lra.
Qed.


End Rounding.


Lemma update_elo_even : update_elo 1500 1500 default_k = (1516, 1484).
Proof.
  unfold update_elo, default_k. rewrite Rpower_10_even.
  f_equal; apply py_round_between; lra.
Qed.







(** ** The pair sampler *)

Lemma sample2_rows (df : list Movie) (r : nat * nat) :
  (2 <= length df)%nat ->
  exists i j a b,
    i <> j /\ df !! i = Some a /\ df !! j = Some b /\
    sample2 df r = Some (a, b).
Proof.
  intros Hn. unfold sample2.
  destruct (Nat.ltb_spec (length df) 2) as [Hlt|_]; [lia|].
  set (n := length df) in *.
  set (i := (r.1 mod n)%nat).
  set (j := ((i + 1 + r.2 mod (n - 1)) mod n)%nat).
  assert (Hi : (i < n)%nat) by (apply Nat.mod_upper_bound; lia).
  assert (Hj : (j < n)%nat) by (apply Nat.mod_upper_bound; lia).
  assert (Hij : i <> j).
  { subst j. set (d := (r.2 mod (n - 1))%nat).
    assert (Hd : (d < n - 1)%nat) by (apply Nat.mod_upper_bound; lia).
    destruct (Nat.lt_ge_cases (i + 1 + d) n) as [Hs|Hs].
    - rewrite Nat.mod_small by lia. lia.
    - replace (i + 1 + d)%nat with ((i + 1 + d - n) + 1 * n)%nat by lia.
      rewrite Nat.Div0.mod_add, Nat.mod_small by lia. lia. }
  destruct (lookup_lt_is_Some_2 df i Hi) as [a Ha].
  destruct (lookup_lt_is_Some_2 df j Hj) as [b Hb].
  exists i, j, a, b. rewrite Ha, Hb. auto.
Qed.

Lemma sample_loop_outcome (df : list Movie) (draws : nat -> nat * nat)
    (attempts i : nat) :
  (2 <= length df)%nat ->
  exists n,
    (n <= attempts)%nat /\
    sample_loop df draws i attempts = sample2 df (draws (i + n)%nat) /\
    (forall k, (k < n)%nat -> draw_overlaps df draws (i + k) = false) /\
    ((n < attempts)%nat -> draw_overlaps df draws (i + n) = true).
Proof.
  intros Hn. revert i.
  induction attempts as [|attempts IH]; intros i.
  - exists 0%nat. rewrite Nat.add_0_r. simpl.
    repeat split; [lia| |]; intros; lia.
  - simpl.
    destruct (sample2_rows df (draws i) Hn) as (p & q & a & b & _ & _ & _ & Hs).
    rewrite Hs.
    destruct (genres_overlap (a, b)) eqn:Ho.
    + exists 0%nat. rewrite Nat.add_0_r. rewrite Hs.
      repeat split; [lia| |]; intros; [lia|].
      unfold draw_overlaps. rewrite Hs. exact Ho.
    + destruct (IH (S i)) as (n & Hle & Heq & Hbefore & Hat).
      exists (S n).
      replace (i + S n)%nat with (S i + n)%nat by lia.
      repeat split; [lia|exact Heq| |].
      * intros k Hk. destruct k as [|k].
        -- rewrite Nat.add_0_r. unfold draw_overlaps. rewrite Hs. exact Ho.
        -- replace (i + S k)%nat with (S i + k)%nat by lia.
           apply Hbefore. lia.
      * intros Hlt. apply Hat. lia.
Qed.

(** C4, as stated, fails: when none of the fifty attempts finds a common
    genre the pair returned is not the one of the fiftieth attempt. *)
Lemma C4_fallback_is_not_last_attempt :
  (2 <= length disjoint_films)%nat /\
  (forall k, (k < 50)%nat -> draw_overlaps disjoint_films late_change k = false) /\
  sample_movie_pair disjoint_films late_change
    <> sample2 disjoint_films (late_change 49).
Proof.
  split; [simpl; lia|]. split.
  - intros k Hk. unfold draw_overlaps, late_change.
    apply Nat.ltb_lt in Hk. rewrite Hk. vm_compute. reflexivity.
  - vm_compute. discriminate.
Qed.

(** C4, amended. On a collection of at least two records
    [sample_movie_pair] returns two records at distinct positions; it is
    the pair of the first of at most fifty draws whose genre sets
    intersect, and when none of the fifty does, the pair of one more draw,
    the fifty-first, returned without a test. *)
Theorem C4_sample_pair_bounded (df : list Movie) (draws : nat -> nat * nat) :
  (2 <= length df)%nat ->
  exists n i j a b,
    (n <= 50)%nat /\
    sample_movie_pair df draws = Some (a, b) /\
    sample2 df (draws n) = Some (a, b) /\
    i <> j /\ df !! i = Some a /\ df !! j = Some b /\
    (forall k, (k < n)%nat -> draw_overlaps df draws k = false) /\
    ((n < 50)%nat -> genres_overlap (a, b) = true).
Proof.
  intros Hn.
  destruct (sample_loop_outcome df draws 50 0 Hn) as (n & Hle & Heq & Hbefore & Hat).
  cbn [Nat.add] in Heq, Hbefore, Hat.
  destruct (sample2_rows df (draws n) Hn) as (i & j & a & b & Hij & Ha & Hb & Hs).
  exists n, i, j, a, b.
  unfold sample_movie_pair. rewrite Heq.
  repeat split; try assumption.
  intros Hlt. specialize (Hat Hlt). unfold draw_overlaps in Hat.
  rewrite Hs in Hat. exact Hat.
Qed.

Lemma C4_sample_pair_bounded_witness :
  exists n i j a b,
    (n <= 50)%nat /\
    sample_movie_pair disjoint_films late_change = Some (a, b) /\
    sample2 disjoint_films (late_change n) = Some (a, b) /\
    i <> j /\ disjoint_films !! i = Some a /\ disjoint_films !! j = Some b /\
    (forall k, (k < n)%nat -> draw_overlaps disjoint_films late_change k = false) /\
    ((n < 50)%nat -> genres_overlap (a, b) = true).
Proof.
  apply (C4_sample_pair_bounded disjoint_films late_change).
  simpl. lia.
Defined.

(** ** The in-memory update of a vote *)

Lemma assign_ratings_rows (df : list Movie) (w l : Movie) (nw nl : Z) :
  assign_ratings df w l nw nl
  = List.map (rate_row (lower (Title w)) (lower (Title l)) nw nl) df.
Proof.
  unfold assign_ratings, loc_assign. rewrite List.map_map. reflexivity.
Qed.

Lemma rate_row_frame (wkey lkey : string) (nw nl : Z) (m : Movie) :
  let m' := rate_row wkey lkey nw nl m in
  Title m' = Title m /\ director m' = director m /\ genres m' = genres m /\
  poster_url m' = poster_url m /\ other m' = other m.
Proof.
  unfold rate_row.
  destruct (String.eqb (lower (Title m)) wkey); simpl;
    destruct (String.eqb (lower (Title m)) lkey); simpl; auto.
Qed.

Lemma rate_row_elo (wkey lkey : string) (nw nl : Z) (m : Movie) :
  elo (rate_row wkey lkey nw nl m)
  = if String.eqb (lower (Title m)) lkey then nl
    else if String.eqb (lower (Title m)) wkey then nw
    else elo m.
Proof.
  unfold rate_row.
  destruct (String.eqb (lower (Title m)) wkey); simpl;
    destruct (String.eqb (lower (Title m)) lkey); reflexivity.
Qed.


Lemma same_rating_per_title_iff (df : list Movie) :
  same_rating_per_title df = true <->
  forall a b, In a df -> In b df ->
    normalized (Title a) = normalized (Title b) -> elo a = elo b.
Proof.
  unfold same_rating_per_title. rewrite forallb_forall. split.
  - intros H a b Ha Hb Hab.
    specialize (H a Ha). rewrite forallb_forall in H. specialize (H b Hb).
    apply String.eqb_eq in Hab. rewrite Hab in H. simpl in H.
    apply Z.eqb_eq. exact H.
  - intros H a Ha. rewrite forallb_forall. intros b Hb.
    destruct (String.eqb (normalized (Title a)) (normalized (Title b))) eqn:E;
      [|reflexivity].
    simpl. apply Z.eqb_eq. apply H; try assumption.
    apply String.eqb_eq. exact E.
Qed.

Lemma loaded_title_stripped (data : list RawRow) (m : Movie) :
  In m (load_movies data) -> normalized (Title m) = lower (Title m).
Proof.
  unfold load_movies. rewrite in_map_iff. intros (r & <- & _).
  simpl. apply normalized_stripped.
Qed.

Lemma assign_ratings_keeps_invariant (df : list Movie) (w l : Movie) (nw nl : Z) :
  (forall m, In m df -> normalized (Title m) = lower (Title m)) ->
  same_rating_per_title df = true ->
  same_rating_per_title (assign_ratings df w l nw nl) = true.
Proof.
  intros Hs Hinv. rewrite same_rating_per_title_iff in Hinv.
  apply same_rating_per_title_iff.
  rewrite assign_ratings_rows.
  intros a' b' Ha' Hb'. apply in_map_iff in Ha', Hb'.
  destruct Ha' as (a & <- & Ha). destruct Hb' as (b & <- & Hb).
  destruct (rate_row_frame (lower (Title w)) (lower (Title l)) nw nl a) as [Ta _].
  destruct (rate_row_frame (lower (Title w)) (lower (Title l)) nw nl b) as [Tb _].
  simpl in Ta, Tb. rewrite Ta, Tb. intros Hab.
  rewrite !rate_row_elo.
  assert (Hlow : lower (Title a) = lower (Title b))
    by (rewrite <- (Hs a Ha), <- (Hs b Hb); exact Hab).
  rewrite Hlow.
  destruct (String.eqb (lower (Title b)) (lower (Title l))); [reflexivity|].
  destruct (String.eqb (lower (Title b)) (lower (Title w))); [reflexivity|].
  apply Hinv; assumption.
Qed.

(** C5. On a loaded collection in which rows with the same normalized
    title carry the same rating, the in-memory update of a vote leaves
    that invariant in place, whatever the winner and the loser. *)
Theorem C5_vote_keeps_rating_per_title
    (data : list RawRow) (winner loser : Movie) :
  same_rating_per_title (load_movies data) = true ->
  same_rating_per_title (vote_in_memory (load_movies data) winner loser) = true.
Proof.
  intros Hinv. unfold vote_in_memory.
  apply assign_ratings_keeps_invariant; [|exact Hinv].
  intros m Hm. exact (loaded_title_stripped data m Hm).
Qed.

Lemma C5_vote_keeps_rating_per_title_witness :
  same_rating_per_title (load_movies two_viewings) = true /\
  same_rating_per_title
    (vote_in_memory (load_movies two_viewings) first_viewing second_viewing) = true.
Proof.
  assert (H : same_rating_per_title (load_movies two_viewings) = true)
    by (vm_compute; reflexivity).
  split; [exact H|].
  exact (C5_vote_keeps_rating_per_title two_viewings first_viewing second_viewing H).
Defined.

Lemma vote_between_viewings :
  vote_in_memory (load_movies two_viewings) first_viewing second_viewing
  = [ mkMovie "Heat" "Mann" "Crime,Drama" "" 1484 ["2023"];
      mkMovie "heat" "Mann" "Crime" "" 1484 ["2024"];
      mkMovie "Big" "Marshall" "Comedy" "" 1500 ["2024"] ].
Proof.
  unfold vote_in_memory, new_ratings.
  change (elo first_viewing) with 1500. change (elo second_viewing) with 1500.
  rewrite update_elo_even. vm_compute. reflexivity.
Qed.




(** ** Writing a vote to the sheet *)

Lemma quiet_refl (ws : Worksheet) : quiet ws ws.
Proof. exists []. simpl. repeat split; [constructor|left; lia]. Qed.

Lemma quiet_trans (ws1 ws2 ws3 : Worksheet) :
  quiet ws1 ws2 -> quiet ws2 ws3 -> quiet ws1 ws3.
Proof.
  intros (p1 & F1 & E1 & L1) (p2 & F2 & E2 & L2).
  exists (p1 ++ p2). split; [apply Forall_app; auto|].
  split; [rewrite E1, E2, app_assoc; reflexivity|].
  destruct L2 as [L2|L2]; [|right; exact L2].
  destruct L1 as [L1|L1].
  - left. rewrite L2, L1, length_app. lia.
  - rewrite L1 in E2. symmetry in E2. apply app_eq_nil in E2 as [-> E3].
    right. exact E3.
Qed.

Lemma quiet_then_failed (e : string) (ws1 ws2 ws3 : Worksheet) :
  quiet ws1 ws2 -> failed_with e ws2 ws3 -> failed_with e ws1 ws3.
Proof.
  intros (p1 & F1 & E1 & L1) (p2 & F2 & E2 & L2).
  exists (p1 ++ p2). split; [apply Forall_app; auto|].
  split; [rewrite E1, E2, app_assoc; reflexivity|].
  destruct L1 as [L1|L1].
  - rewrite L2, L1, length_app. lia.
  - rewrite L1 in E2. destruct p2; discriminate E2.
Qed.

Lemma quiet_not_failed (e : string) (ws ws' : Worksheet) :
  quiet ws ws' -> failed_with e ws ws' -> False.
Proof.
  intros (p1 & F1 & E1 & _) (p2 & F2 & E2 & _).
  rewrite E1 in E2.
  assert (Hlen : length p1 = S (length p2)).
  { apply (f_equal (@length _)) in E2. rewrite !length_app in E2. simpl in E2. lia. }
  assert (Hk : (p1 ++ faults ws') !! length p2 = Some (Some e)).
  { rewrite E2. rewrite lookup_app_r by lia. rewrite Nat.sub_diag. reflexivity. }
  rewrite lookup_app_l in Hk by lia.
  rewrite List.Forall_forall in F1.
  assert (Hin : In (Some e) p1).
  { apply list_elem_of_In. eapply list_elem_of_lookup_2. exact Hk. }
  specialize (F1 _ Hin). discriminate F1.
Qed.

Lemma failed_with_cause (e e' : string) (ws ws' : Worksheet) :
  failed_with e ws ws' -> failed_with e' ws ws' -> e = e'.
Proof.
  intros (p1 & F1 & E1 & _) (p2 & F2 & E2 & _).
  rewrite E1 in E2.
  assert (Hlen : length p1 = length p2).
  { apply (f_equal (@length _)) in E2. rewrite !length_app in E2. simpl in E2. lia. }
  apply app_inj_1 in E2 as [_ E2]; [|exact Hlen].
  congruence.
Qed.

Lemma update_cell_outcome (row col : nat) (value : Z) (ws ws' : Worksheet)
    (res : string + unit) :
  update_cell row col value ws = (ws', res) ->
  match res with
  | inr _ => quiet ws ws'
  | inl e => failed_with e ws ws'
  end.
Proof.
  unfold update_cell.
  destruct (faults ws) as [|[e|] rest] eqn:Hf; intros H; inversion H; subst; clear H.
  - exists []. simpl. rewrite Hf. repeat split; [constructor|right; reflexivity].
  - exists []. simpl. rewrite Hf. repeat split; [constructor|lia].
  - exists [None]. simpl. rewrite Hf.
    repeat split; [repeat constructor|left; lia].
Qed.

Lemma when_outcome (c : bool) (row col : nat) (value : Z) (ws ws' : Worksheet)
    (res : string + unit) :
  when c (update_cell row col value) ws = (ws', res) ->
  match res with
  | inr _ => quiet ws ws'
  | inl e => failed_with e ws ws'
  end.
Proof.
  destruct c; simpl.
  - apply update_cell_outcome.
  - unfold ret. intros H. inversion H; subst. apply quiet_refl.
Qed.

Lemma persist_rows_outcome (rows : list (list string)) (i title_idx elo_idx : nat)
    (w l : Movie) (nw nl : Z) (ws ws' : Worksheet) (res : string + unit) :
  persist_rows i rows title_idx elo_idx w l nw nl ws = (ws', res) ->
  match res with
  | inr _ => quiet ws ws'
  | inl e => failed_with e ws ws' \/ (e = "IndexError"%string /\ quiet ws ws')
  end.
Proof.
  revert i ws. induction rows as [|row rest IH]; intros i ws; simpl.
  - unfold ret. intros H. inversion H; subst. apply quiet_refl.
  - destruct (row !! title_idx) as [cell|].
    + unfold and_then, bind.
      destruct (when _ (update_cell i (elo_idx + 1) nw) ws) as [ws1 r1] eqn:H1.
      apply when_outcome in H1.
      destruct r1 as [e1|u1].
      { intros H. inversion H; subst. left. exact H1. }
      destruct (when _ (update_cell i (elo_idx + 1) nl) ws1) as [ws2 r2] eqn:H2.
      apply when_outcome in H2.
      destruct r2 as [e2|u2].
      { intros H. inversion H; subst. left.
        eapply quiet_then_failed; eassumption. }
      intros H. apply IH in H.
      assert (Hq : quiet ws ws2) by (eapply quiet_trans; eassumption).
      destruct res as [e|u].
      * destruct H as [H|[He H]].
        -- left. eapply quiet_then_failed; eassumption.
        -- right. split; [exact He|]. eapply quiet_trans; eassumption.
      * eapply quiet_trans; eassumption.
    + unfold raise. intros H. inversion H; subst.
      right. split; [reflexivity|apply quiet_refl].
Qed.

Lemma process_vote_memory (df : list Movie) (ws : Worksheet) (w l : Movie)
    (h : Handled) :
  process_vote df ws w l = inr h -> df_after h = vote_in_memory df w l.
Proof.
  unfold process_vote, vote_in_memory.
  destruct (new_ratings w l) as [nw nl]. simpl.
  destruct (persist_vote ws w l nw nl) as [e|[ws' msg]]; intros H;
    inversion H; subst. reflexivity.
Qed.

Lemma process_vote_shown (df : list Movie) (ws : Worksheet) (w l : Movie)
    (h : Handled) :
  process_vote df ws w l = inr h ->
  match shown h with
  | ShowSuccess _ => quiet ws (ws_after h)
  | ShowError e =>
      failed_with e ws (ws_after h) \/
      (e = "IndexError"%string /\ quiet ws (ws_after h))
  end.
Proof.
  unfold process_vote.
  destruct (new_ratings w l) as [nw nl].
  unfold persist_vote.
  destruct (cells ws) as [|header_row data_rows]; [discriminate|].
  destruct (index_of _ _) as [title_idx|]; [|discriminate].
  destruct (index_of _ _) as [elo_idx|]; [|discriminate].
  destruct (persist_rows _ _ _ _ _ _ _ _ _) as [ws' [e|u]] eqn:Hp;
    intros H; inversion H; subst; simpl;
    apply persist_rows_outcome in Hp; exact Hp.
Qed.

(** C10. Whenever the handler runs to its end, the collection in memory is
    the updated one: rows of the loser's title hold the loser's new
    rating, rows of the winner's title (and not the loser's) hold the
    winner's new rating, failed write or not.  A write that raises is
    reported: [st.error] is shown with the cause, the success message is
    not, and the raising call is the last call made on the sheet. *)
Theorem C10_persist_failure_reported
    (df : list Movie) (ws : Worksheet) (winner loser : Movie) (h : Handled) :
  process_vote df ws winner loser = inr h ->
  df_after h = vote_in_memory df winner loser /\
  Forall
    (fun m =>
       (lower (Title m) = lower (Title loser) ->
        elo m = snd (new_ratings winner loser)) /\
       (lower (Title m) = lower (Title winner) ->
        lower (Title m) <> lower (Title loser) ->
        elo m = fst (new_ratings winner loser)))
    (df_after h) /\
  (forall e, failed_with e ws (ws_after h) -> shown h = ShowError e) /\
  (forall e, shown h = ShowError e ->
     failed_with e ws (ws_after h) \/
     (e = "IndexError"%string /\ quiet ws (ws_after h))).
Proof.
  intros H.
  pose proof (process_vote_memory df ws winner loser h H) as Hm.
  pose proof (process_vote_shown df ws winner loser h H) as Hs.
  split; [exact Hm|]. split; [|split].
  - rewrite Hm. unfold vote_in_memory. rewrite assign_ratings_rows.
    apply List.Forall_forall. intros m' Hin. apply in_map_iff in Hin as (m & <- & _).
    set (nw := fst (new_ratings winner loser)).
    set (nl := snd (new_ratings winner loser)).
    destruct (rate_row_frame (lower (Title winner)) (lower (Title loser)) nw nl m)
      as [HT _].
    cbv zeta in HT. rewrite HT, rate_row_elo. split.
    + intros E. apply String.eqb_eq in E. rewrite E. reflexivity.
    + intros Ew El. apply String.eqb_eq in Ew. apply String.eqb_neq in El.
      rewrite El, Ew. reflexivity.
  - intros e Hf. destruct (shown h) as [t|e'].
    + exfalso. eapply quiet_not_failed; eassumption.
    + destruct Hs as [Hs|[_ Hs]].
      * f_equal. eapply failed_with_cause; eassumption.
      * exfalso. eapply quiet_not_failed; eassumption.
  - intros e He. rewrite He in Hs. exact Hs.
Qed.

Lemma process_vote_failing_sheet :
  process_vote (load_movies two_viewings) failing_sheet first_viewing second_viewing
  = inr {| df_after :=
             [ mkMovie "Heat" "Mann" "Crime,Drama" "" 1484 ["2023"];
               mkMovie "heat" "Mann" "Crime" "" 1484 ["2024"];
               mkMovie "Big" "Marshall" "Comedy" "" 1500 ["2024"] ];
           ws_after :=
             {| cells := [ ["Title"; "director"; "elo"];
                           ["Heat"; "Mann"; "1516"];
                           [" heat "; "Mann"; "1500"];
                           ["Big"; "Marshall"; "1500"] ];
                faults := [None];
                calls := [((2, 3)%nat, 1484); ((2, 3)%nat, 1516)] |};
           shown := ShowError "APIError" |}.
Proof.
  unfold process_vote, new_ratings.
  change (elo first_viewing) with 1500. change (elo second_viewing) with 1500.
  rewrite update_elo_even. vm_compute. reflexivity.
Qed.

Lemma C10_persist_failure_reported_witness :
  exists h,
    process_vote (load_movies two_viewings) failing_sheet
      first_viewing second_viewing = inr h /\
    shown h = ShowError "APIError" /\
    df_after h
    = vote_in_memory (load_movies two_viewings) first_viewing second_viewing.
Proof.
  eexists. split; [exact process_vote_failing_sheet|].
  split; [reflexivity|].
  exact (proj1 (C10_persist_failure_reported _ _ _ _ _ process_vote_failing_sheet)).
Defined.

(** ** Grouping and sorting *)

Lemma boolean_index_filter (f : Movie -> bool) (df : list Movie) :
  boolean_index df (List.map f df) = List.filter f df.
Proof.
  induction df as [|m df IH]; simpl; [reflexivity|].
  rewrite IH. reflexivity.
Qed.

Lemma insert_sorted_perm (x : string) (l : list string) :
  Permutation (insert_sorted x l) (x :: l).
Proof.
  induction l as [|y l IH]; simpl; [reflexivity|].
  destruct (String.leb x y); [reflexivity|].
  rewrite IH. apply perm_swap.
Qed.

Lemma sorted_perm (l : list string) : Permutation (sorted l) l.
Proof.
  induction l as [|x l IH]; simpl; [reflexivity|].
  rewrite insert_sorted_perm, IH. reflexivity.
Qed.

Lemma In_sorted (x : string) (l : list string) : In x (sorted l) <-> In x l.
Proof.
  split; apply Permutation_in; [|symmetry]; apply sorted_perm.
Qed.

Lemma insert_sorted_Sorted (x : string) (l : list string) :
  Sorted (fun a b => String.leb a b = true) l ->
  Sorted (fun a b => String.leb a b = true) (insert_sorted x l).
Proof.
  induction 1 as [|y l Hs IH Hd]; simpl.
  - repeat constructor.
  - destruct (String.leb x y) eqn:E.
    + constructor; [constructor; assumption|constructor; exact E].
    + assert (Hyx : String.leb y x = true)
        by (destruct (String.leb_total x y) as [H|H]; congruence).
      constructor; [exact IH|].
      destruct Hd as [|z l Hz]; simpl.
      * constructor. exact Hyx.
      * destruct (String.leb x z); constructor; assumption.
Qed.

Lemma sorted_Sorted (l : list string) :
  Sorted (fun a b => String.leb a b = true) (sorted l).
Proof.
  induction l as [|x l IH]; simpl; [constructor|].
  apply insert_sorted_Sorted. exact IH.
Qed.

Section SortValues.

Context {A : Type} (key : A -> Z).

Lemma insert_desc_perm (x : A) (l : list A) :
  Permutation (insert_desc key x l) (x :: l).
Proof.
  induction l as [|y l IH]; simpl; [reflexivity|].
  destruct (key y <=? key x); [reflexivity|].
  rewrite IH. apply perm_swap.
Qed.

Lemma sort_values_perm (l : list A) : Permutation (sort_values key l) l.
Proof.
  induction l as [|x l IH]; simpl; [reflexivity|].
  rewrite insert_desc_perm, IH. reflexivity.
Qed.

Lemma In_sort_values (x : A) (l : list A) : In x (sort_values key l) <-> In x l.
Proof.
  split; apply Permutation_in; [|symmetry]; apply sort_values_perm.
Qed.

Lemma insert_desc_top (x : A) (l : list A) :
  head_is_top key l -> head_is_top key (insert_desc key x l).
Proof.
  destruct l as [|y l]; simpl; [intros _ z []|].
  intros Hy. destruct (Z.leb_spec (key y) (key x)) as [Hle|Hlt]; simpl.
  - intros z [<-|Hz]; [exact Hle|]. specialize (Hy z Hz). lia.
  - intros z Hz.
    apply (Permutation_in _ (insert_desc_perm x l)) in Hz.
    destruct Hz as [<-|Hz]; [lia|apply Hy; exact Hz].
Qed.

Lemma sort_values_top (l : list A) : head_is_top key (sort_values key l).
Proof.
  induction l as [|x l IH]; simpl; [exact I|].
  apply insert_desc_top. exact IH.
Qed.

Lemma sort_values_head (l : list A) (m : A) (rest : list A) :
  sort_values key l = m :: rest ->
  In m l /\ forall x, In x l -> key x <= key m.
Proof.
  intros H. pose proof (sort_values_top l) as Ht. rewrite H in Ht. simpl in Ht.
  split.
  - apply In_sort_values. rewrite H. left. reflexivity.
  - intros x Hx. apply In_sort_values in Hx. rewrite H in Hx.
    destruct Hx as [<-|Hx]; [lia|apply Ht; exact Hx].
Qed.

End SortValues.

Lemma groupby_first_In (rows : list Movie) (m : Movie) :
  In m (groupby_first rows) ->
  In m rows /\
  List.find (fun r => String.eqb (Title r) (Title m)) rows = Some m.
Proof.
  unfold groupby_first. rewrite <- list_elem_of_In, list_elem_of_omap.
  intros (t & _ & Hf).
  destruct (find_some _ _ Hf) as [Hin Ht].
  apply String.eqb_eq in Ht. subst t. split; assumption.
Qed.

Lemma find_first (f : Movie -> bool) (rows : list Movie) (r : Movie) :
  In r rows -> f r = true -> exists m, List.find f rows = Some m.
Proof.
  intros Hin Hf. destruct (List.find f rows) as [m|] eqn:E; [eauto|].
  pose proof (find_none _ _ E r Hin). congruence.
Qed.

Lemma groupby_first_covers (rows : list Movie) (r : Movie) :
  In r rows -> exists m, In m (groupby_first rows) /\ Title m = Title r.
Proof.
  intros Hin.
  destruct (find_first (fun x => String.eqb (Title x) (Title r)) rows r Hin)
    as [m Hm]; [apply String.eqb_refl|].
  exists m. split.
  - unfold groupby_first. rewrite <- list_elem_of_In, list_elem_of_omap.
    exists (Title r). split; [|exact Hm].
    apply list_elem_of_In, In_sorted, list_elem_of_In, elem_of_remove_dups,
      list_elem_of_In, in_map. exact Hin.
  - destruct (find_some _ _ Hm) as [_ Ht]. apply String.eqb_eq. exact Ht.
Qed.

Lemma groupby_first_titles (rows : list Movie) :
  NoDup (List.map Title (groupby_first rows)).
Proof.
  unfold groupby_first.
  assert (Hnd : NoDup (sorted (remove_dups (List.map Title rows)))).
  { rewrite sorted_perm. apply NoDup_remove_dups. }
  revert Hnd. generalize (sorted (remove_dups (List.map Title rows))).
  induction l as [|t l IH]; simpl; intros Hnd; [constructor|].
  apply NoDup_cons in Hnd as [Ht Hnd].
  destruct (List.find _ rows) as [m|] eqn:Hf; simpl; [|apply IH; exact Hnd].
  apply NoDup_cons. split; [|apply IH; exact Hnd].
  destruct (find_some _ _ Hf) as [_ Hm]. apply String.eqb_eq in Hm. subst t.
  intros Hin. apply Ht.
  apply list_elem_of_In, in_map_iff in Hin as (m' & Hm' & Hin).
  apply list_elem_of_In, list_elem_of_omap in Hin as (t' & Ht' & Hf').
  destruct (find_some _ _ Hf') as [_ E]. apply String.eqb_eq in E.
  congruence.
Qed.

Lemma genres_contains_mask (df : list Movie) (g : string) (mask : list bool) :
  genres_contains df g = Some mask ->
  exists re,
    re_compile g = Some re /\
    boolean_index df mask = List.filter (fun m => re_search re (genres m)) df.
Proof.
  unfold genres_contains. destruct (re_compile g) as [re|]; [|discriminate].
  simpl. intros H. inversion H; subst. exists re. split; [reflexivity|].
  apply boolean_index_filter.
Qed.

(** ** The leaderboards *)





(** C8. Grouping by normalized title would make one entry of rows whose
    titles differ in letter case only.  The leaderboard does not: of the
    rows titled "Heat" and " heat ", which have the same normalized title
    and which a vote rates as one film, each gets an entry of its own. *)
Theorem C8_leaderboard_splits_case_variants :
  leaderboard_df (load_movies two_viewings) "Overall"
  = Some [ mkEntry "Big" "Marshall" "Comedy" 1500;
           mkEntry "Heat" "Mann" "Crime,Drama" 1500;
           mkEntry "heat" "Mann" "Crime" 1500 ] /\
  normalized "Heat" = normalized " heat " /\
  Forall (fun m => normalized (Title m) = normalized "Heat" -> elo m = 1484)
    (vote_in_memory (load_movies two_viewings) first_viewing second_viewing).
Proof.
  split; [vm_compute; reflexivity|]. split; [vm_compute; reflexivity|].
  rewrite vote_between_viewings.
  repeat constructor; simpl; try reflexivity.
  vm_compute. discriminate.
Qed.

(** ** The top film of each genre *)

Lemma str_contains_compiled (g : string) (re : list re_atom) (s : string) :
  re_compile g = Some re -> str_contains g s = Some (re_search re s).
Proof. intros H. unfold str_contains. rewrite H. reflexivity. Qed.

Lemma has_match_compiled (df : list Movie) (g : string) (re : list re_atom) :
  re_compile g = Some re ->
  has_match df g = existsb (fun m => re_search re (genres m)) df.
Proof.
  intros H. unfold has_match.
  induction df as [|m df IH]; simpl; [reflexivity|].
  rewrite IH, (str_contains_compiled g re _ H). reflexivity.
Qed.

Lemma genre_labels_In (df : list Movie) (g : string) :
  In g (genre_labels df) <->
  exists m piece, In m df /\ In piece (split_comma (genres m)) /\ g = strip piece.
Proof.
  unfold genre_labels.
  rewrite In_sorted, <- list_elem_of_In, elem_of_elements, elem_of_list_to_set,
    list_elem_of_In, in_flat_map.
  split.
  - intros (m & Hm & Hg). apply in_map_iff in Hg as (piece & <- & Hp). eauto.
  - intros (m & piece & Hm & Hp & ->). exists m. split; [exact Hm|].
    apply in_map. exact Hp.
Qed.

Lemma genre_labels_NoDup (df : list Movie) : NoDup (genre_labels df).
Proof. unfold genre_labels. rewrite sorted_perm. apply NoDup_elements. Qed.

Lemma top_movies_loop_spec (df : list Movie) (labels : list string)
    (out : list (string * Movie)) :
  top_movies_loop df labels = Some out ->
  List.map fst out = List.filter (has_match df) labels /\
  Forall (champion df) out.
Proof.
  revert out. induction labels as [|g labels IH]; simpl; intros out H.
  - inversion H; subst. split; [reflexivity|constructor].
  - destruct (genres_contains df g) as [mask|] eqn:Hmask; [|discriminate].
    destruct (genres_contains_mask df g mask Hmask) as (re & Hre & Hrows).
    rewrite Hrows in H.
    destruct (top_movies_loop df labels) as [rest|]; [|discriminate].
    destruct (IH rest eq_refl) as [IHl IHc].
    simpl in H. inversion H; subst out; clear H.
    rewrite (has_match_compiled df g re Hre).
    set (rows := List.filter (fun m => re_search re (genres m)) df) in *.
    destruct (sort_values elo (groupby_first rows)) as [|m others] eqn:Hsort.
    + assert (Hnone : existsb (fun m => re_search re (genres m)) df = false).
      { destruct (existsb _ df) eqn:E; [|reflexivity].
        apply existsb_exists in E as (r & Hr & Hs).
        assert (Hin : In r rows) by (apply filter_In; auto).
        destruct (groupby_first_covers rows r Hin) as (m & Hm & _).
        apply (In_sort_values elo) in Hm. rewrite Hsort in Hm. destruct Hm. }
      rewrite Hnone. split; assumption.
    + destruct (sort_values_head elo _ m others Hsort) as [Hm Hmax].
      apply groupby_first_In in Hm as [Hm _].
      apply filter_In in Hm as [Hmdf Hms].
      assert (Hsome : existsb (fun m => re_search re (genres m)) df = true)
        by (apply existsb_exists; eauto).
      rewrite Hsome. simpl. split; [f_equal; exact IHl|].
      constructor; [|exact IHc].
      unfold champion. simpl. split; [exact Hmdf|].
      split; [rewrite (str_contains_compiled g re _ Hre), Hms; reflexivity|].
      intros r Hr Hs. rewrite (str_contains_compiled g re _ Hre) in Hs.
      assert (Hin : In r rows) by (apply filter_In; split; congruence).
      destruct (groupby_first_covers rows r Hin) as (r' & Hr' & Ht).
      exists r'. pose proof (Hmax r' Hr') as Hle.
      apply groupby_first_In in Hr' as [Hr' _].
      apply filter_In in Hr' as [Hr'df Hr's].
      rewrite (str_contains_compiled g re _ Hre), Hr's. auto.
Qed.

Lemma top_movies_example :
  get_top_movies_by_genre [film_A; film_B; film_C]
  = Some [ ("Action"%string, film_B); ("Comedy"%string, film_C);
           ("Drama"%string, film_A) ].
Proof. vm_compute. reflexivity. Qed.




(** ** Further properties: loading and genre sets *)

Lemma lower_ascii_idempotent (c : ascii) : lower_ascii (lower_ascii c) = lower_ascii c.
Proof. destruct c as [[] [] [] [] [] [] [] []]; reflexivity. Qed.

Lemma is_space_lower_ascii (c : ascii) : is_space (lower_ascii c) = is_space c.
Proof. destruct c as [[] [] [] [] [] [] [] []]; reflexivity. Qed.

Lemma comma_lower_ascii (c : ascii) :
  Ascii.eqb (lower_ascii c) "," = Ascii.eqb c ",".
Proof. destruct c as [[] [] [] [] [] [] [] []]; reflexivity. Qed.

Lemma lower_idempotent (s : string) : lower (lower s) = lower s.
Proof.
  induction s as [|c t IH]; simpl; [reflexivity|].
  rewrite lower_ascii_idempotent, IH. reflexivity.
Qed.

Lemma lower_empty (s : string) : lower s = EmptyString <-> s = EmptyString.
Proof. destruct s; simpl; split; congruence. Qed.

Lemma lstrip_lower (s : string) : lstrip (lower s) = lower (lstrip s).
Proof.
  induction s as [|c t IH]; simpl; [reflexivity|].
  rewrite is_space_lower_ascii. destruct (is_space c); [exact IH|reflexivity].
Qed.

Lemma rstrip_lower (s : string) : rstrip (lower s) = lower (rstrip s).
Proof.
  induction s as [|c t IH]; simpl; [reflexivity|].
  rewrite IH, is_space_lower_ascii.
  destruct (rstrip t); simpl; [destruct (is_space c)|]; reflexivity.
Qed.

Lemma strip_lower (s : string) : strip (lower s) = lower (strip s).
Proof. unfold strip. rewrite lstrip_lower, rstrip_lower. reflexivity. Qed.

Lemma split_comma_lower (s : string) :
  split_comma (lower s) = List.map lower (split_comma s).
Proof.
  induction s as [|c t IH]; simpl; [reflexivity|].
  rewrite comma_lower_ascii, IH.
  destruct (Ascii.eqb c ","); simpl; [reflexivity|].
  destruct (split_comma t); reflexivity.
Qed.

(** What [get_genre_set] keeps of a genre string, before the set is built. *)
Lemma genre_tokens_lower (pieces : list string) :
  List.map (fun g => lower (strip g))
    (List.filter (fun g => negb (String.eqb (strip g) EmptyString))
       (List.map lower pieces))
  = List.map (fun g => lower (strip g))
      (List.filter (fun g => negb (String.eqb (strip g) EmptyString)) pieces).
Proof.
  induction pieces as [|p ps IH]; simpl; [reflexivity|].
  rewrite strip_lower.
  assert (E : String.eqb (lower (strip p)) EmptyString
              = String.eqb (strip p) EmptyString).
  { destruct (strip p); reflexivity. }
  rewrite E. destruct (String.eqb (strip p) EmptyString); simpl; [exact IH|].
  rewrite strip_lower, lower_idempotent, IH. reflexivity.
Qed.


(** X2. Every member of a genre set is a normalized token: not empty,
    lowercase, without surrounding whitespace, and it comes from a piece
    between commas of the genre string. *)
Theorem get_genre_set_normalized (genres_str x : string) :
  x ∈ get_genre_set genres_str ->
  x <> EmptyString /\ lower x = x /\ strip x = x /\
  exists piece, In piece (split_comma genres_str) /\ x = lower (strip piece).
Proof.
  unfold get_genre_set. rewrite elem_of_list_to_set, list_elem_of_In.
  intros Hx. apply in_map_iff in Hx as (piece & <- & Hp). apply filter_In in Hp as [Hp Hne].
  apply negb_true_iff, String.eqb_neq in Hne.
  split; [rewrite lower_empty; exact Hne|].
  split; [apply lower_idempotent|].
  split; [rewrite strip_lower, strip_idempotent; reflexivity|eauto].
Qed.

Lemma get_genre_set_normalized_witness :
  "drama"%string <> EmptyString /\ lower "drama" = "drama"%string /\
  strip "drama" = "drama"%string /\
  exists piece, In piece (split_comma " Action , DRAMA ,,") /\
                "drama"%string = lower (strip piece).
Proof.
  apply (get_genre_set_normalized " Action , DRAMA ,," "drama").
  vm_compute. reflexivity.
Defined.

(** X3. The genre set does not depend on letter case: a genre string and
    its lowercased form have the same set. *)
Theorem get_genre_set_ignores_case (genres_str : string) :
  get_genre_set (lower genres_str) = get_genre_set genres_str.
Proof.
  unfold get_genre_set. rewrite split_comma_lower, genre_tokens_lower. reflexivity.
Qed.

(** X4. A genre string without any non-blank piece (empty, blanks, bare
    commas) has the empty genre set, and such a row shares a genre with
    no other row. *)
Theorem blank_genres_never_overlap (a b : Movie) :
  forallb (fun g => String.eqb (strip g) EmptyString) (split_comma (genres a)) = true ->
  get_genre_set (genres a) = ∅ /\
  genres_overlap (a, b) = false /\ genres_overlap (b, a) = false.
Proof.
  intros H.
  assert (He : get_genre_set (genres a) = ∅).
  { unfold get_genre_set.
    replace (List.filter _ (split_comma (genres a))) with (@nil string);
      [reflexivity|].
    induction (split_comma (genres a)) as [|p ps IH]; simpl in *; [reflexivity|].
    apply andb_prop in H as [Hp Hps]. rewrite Hp. simpl. exact (IH Hps). }
  split; [exact He|].
  unfold genres_overlap. simpl. rewrite He.
  split; apply bool_decide_eq_false; intros Hne; apply Hne.
  - apply (left_absorb_L _ _).
  - apply (right_absorb_L _ _).
Qed.

Lemma blank_genres_never_overlap_witness :
  get_genre_set (genres (mkMovie "Untitled" "" " , " "" 1500 [])) = ∅ /\
  genres_overlap (mkMovie "Untitled" "" " , " "" 1500 [], film_A) = false /\
  genres_overlap (film_A, mkMovie "Untitled" "" " , " "" 1500 []) = false.
Proof.
  apply (blank_genres_never_overlap (mkMovie "Untitled" "" " , " "" 1500 []) film_A).
  reflexivity.
Defined.

(** ** Further properties: the sampler and the Elo update *)

Lemma sample_loop_too_few (df : list Movie) (draws : nat -> nat * nat)
    (i attempts : nat) :
  (length df < 2)%nat -> sample_loop df draws i attempts = None.
Proof.
  intros Hn.
  assert (Hs : forall r, sample2 df r = None).
  { intros r. unfold sample2. apply Nat.ltb_lt in Hn. rewrite Hn. reflexivity. }
  destruct attempts; simpl; rewrite Hs; reflexivity.
Qed.

(** X5. On a collection of fewer than two rows the sampler fails at its
    first draw, whatever the random source: no pair is returned. *)
Theorem sample_pair_needs_two_rows (df : list Movie) (draws : nat -> nat * nat) :
  (length df < 2)%nat -> sample_movie_pair df draws = None.
Proof. intros Hn. apply sample_loop_too_few. exact Hn. Qed.

Lemma sample_pair_needs_two_rows_witness :
  sample_movie_pair [film_A] late_change = None.
Proof. apply (sample_pair_needs_two_rows [film_A] late_change). simpl. lia. Defined.

(** X6. When every two rows of the collection have a genre in common, the
    sampler returns the pair of its very first draw. *)
Theorem sample_pair_first_draw (df : list Movie) (draws : nat -> nat * nat) :
  (2 <= length df)%nat ->
  (forall a b, In a df -> In b df -> genres_overlap (a, b) = true) ->
  exists a b,
    sample_movie_pair df draws = Some (a, b) /\
    sample2 df (draws 0%nat) = Some (a, b) /\
    genres_overlap (a, b) = true.
Proof.
  intros Hn Hall.
  destruct (sample2_rows df (draws 0%nat) Hn) as (i & j & a & b & _ & Ha & Hb & Hs).
  assert (Ho : genres_overlap (a, b) = true).
  { apply Hall; apply list_elem_of_In; eapply list_elem_of_lookup_2; eassumption. }
  exists a, b. repeat split; try assumption.
  unfold sample_movie_pair. simpl. rewrite Hs, Ho. reflexivity.
Qed.

Lemma sample_pair_first_draw_witness :
  exists a b,
    sample_movie_pair [film_A; film_B] late_change = Some (a, b) /\
    sample2 [film_A; film_B] (late_change 0%nat) = Some (a, b) /\
    genres_overlap (a, b) = true.
Proof.
  apply (sample_pair_first_draw [film_A; film_B] late_change); [simpl; lia|].
  intros a b [<-|[<-|[]]] [<-|[<-|[]]]; vm_compute; reflexivity.
Defined.

Section EloBounds.

Local Open Scope R_scope.





End EloBounds.






(** ** Further properties: the writes of a vote *)

Lemma targeted_shift (i : nat) (row : list string) (rows : list (list string))
    (ti ei : nat) (w l : Movie) (nw nl : Z) (call : nat * nat * Z) :
  targeted (S i) rows ti ei w l nw nl call ->
  targeted i (row :: rows) ti ei w l nw nl call.
Proof.
  unfold targeted. intros (Hc & Hr & r0 & cell & Hrow & Hcell & Hm).
  split; [exact Hc|]. split; [lia|].
  exists r0, cell. split; [|auto].
  replace (call.1.1 - i)%nat with (S (call.1.1 - S i)) by lia. exact Hrow.
Qed.

Lemma when_calls (c : bool) (row col : nat) (value : Z) (ws ws' : Worksheet)
    (res : string + unit) :
  when c (update_cell row col value) ws = (ws', res) ->
  calls ws' = (if c then [(row, col, value)] else []) ++ calls ws.
Proof.
  destruct c; simpl.
  - unfold update_cell.
    destruct (faults ws) as [|[e|] rest]; intros H; inversion H; reflexivity.
  - unfold ret. intros H. inversion H. reflexivity.
Qed.

Lemma persist_rows_calls (rows : list (list string)) (i ti ei : nat)
    (w l : Movie) (nw nl : Z) (ws ws' : Worksheet) (res : string + unit) :
  persist_rows i rows ti ei w l nw nl ws = (ws', res) ->
  exists new,
    calls ws' = new ++ calls ws /\
    Forall (targeted i rows ti ei w l nw nl) new.
Proof.
  revert i ws. induction rows as [|row rest IH]; intros i ws; simpl.
  - unfold ret. intros H. inversion H; subst. exists []. split; [reflexivity|constructor].
  - destruct (row !! ti) as [cell|] eqn:Hcell.
    + unfold and_then, bind.
      destruct (when _ (update_cell i (ei + 1) nw) ws) as [ws1 r1] eqn:H1.
      pose proof (when_calls _ _ _ _ _ _ _ H1) as C1.
      assert (T1 : Forall (targeted i (row :: rest) ti ei w l nw nl)
                     (if String.eqb (lower (strip cell)) (lower (strip (Title w)))
                      then [(i, (ei + 1)%nat, nw)] else [])).
      { destruct (String.eqb (lower (strip cell)) (lower (strip (Title w)))) eqn:E;
          constructor; [|constructor].
        apply String.eqb_eq in E. unfold targeted. simpl.
        split; [reflexivity|]. split; [lia|].
        exists row, cell. rewrite Nat.sub_diag. auto. }
      destruct r1 as [e1|u1].
      { intros H. inversion H; subst. eexists. split; [exact C1|exact T1]. }
      destruct (when _ (update_cell i (ei + 1) nl) ws1) as [ws2 r2] eqn:H2.
      pose proof (when_calls _ _ _ _ _ _ _ H2) as C2.
      assert (T2 : Forall (targeted i (row :: rest) ti ei w l nw nl)
                     (if String.eqb (lower (strip cell)) (lower (strip (Title l)))
                      then [(i, (ei + 1)%nat, nl)] else [])).
      { destruct (String.eqb (lower (strip cell)) (lower (strip (Title l)))) eqn:E;
          constructor; [|constructor].
        apply String.eqb_eq in E. unfold targeted. simpl.
        split; [reflexivity|]. split; [lia|].
        exists row, cell. rewrite Nat.sub_diag. auto. }
      destruct r2 as [e2|u2].
      { intros H. inversion H; subst. eexists. split.
        - rewrite C2, C1, app_assoc. reflexivity.
        - apply Forall_app. split; assumption. }
      intros H. destruct (IH _ _ H) as (new & C3 & T3).
      eexists. split.
      * rewrite C3, C2, C1, !app_assoc. reflexivity.
      * repeat (apply Forall_app; split); try assumption.
        eapply Forall_impl; [exact T3|]. intros call. apply targeted_shift.
    + unfold raise. intros H. inversion H; subst.
      exists []. split; [reflexivity|constructor].
Qed.

Lemma index_of_Some (x : string) (l : list string) (n : nat) :
  index_of x l = Some n -> l !! n = Some x.
Proof.
  revert n. induction l as [|y l IH]; simpl; intros n; [discriminate|].
  destruct (String.eqb y x) eqn:E.
  - intros H. inversion H; subst. apply String.eqb_eq in E. subst. reflexivity.
  - destruct (index_of x l) as [k|]; simpl; [|discriminate].
    intros H. inversion H; subst. simpl. apply IH. reflexivity.
Qed.

Lemma lookup_map {A B : Type} (f : A -> B) (l : list A) (n : nat) :
  List.map f l !! n = option_map f (l !! n).
Proof.
  revert n. induction l as [|a l IH]; intros [|n]; simpl; try reflexivity.
  apply IH.
Qed.

Lemma index_of_None (x : string) (l : list string) :
  index_of x l = None <-> ~ In x l.
Proof.
  induction l as [|y l IH]; simpl; [tauto|].
  destruct (String.eqb y x) eqn:E.
  - apply String.eqb_eq in E. split; [discriminate|]. intros H. exfalso. auto.
  - apply String.eqb_neq in E.
    destruct (index_of x l) as [k|]; simpl.
    + split; [discriminate|]. intros H.
      assert (Hn : ~ In x l) by tauto.
      apply IH in Hn. discriminate Hn.
    + split; [|reflexivity]. intros _ [H|H]; [contradiction|].
      apply (proj1 IH); [reflexivity|exact H].
Qed.

Lemma persist_rows_complete (rows : list (list string)) (i ti ei : nat)
    (w l : Movie) (nw nl : Z) (ws : Worksheet) :
  (forall row, In row rows -> (ti < length row)%nat) ->
  Forall (eq None) (faults ws) ->
  exists ws', persist_rows i rows ti ei w l nw nl ws = (ws', inr tt).
Proof.
  revert i ws. induction rows as [|row rest IH]; intros i ws Hrows Hf; simpl.
  - unfold ret. eauto.
  - destruct (lookup_lt_is_Some_2 row ti (Hrows row (or_introl eq_refl)))
      as [cell Hcell].
    rewrite Hcell. unfold and_then, bind.
    assert (Hstep : forall c r col v ws0,
              Forall (eq None) (faults ws0) ->
              exists ws1, when c (update_cell r col v) ws0 = (ws1, inr tt) /\
                          Forall (eq None) (faults ws1)).
    { intros c r col v ws0 H0. destruct c; simpl; [|unfold ret; eauto].
      unfold update_cell. destruct (faults ws0) as [|[e|] more] eqn:E.
      - eexists. split; [reflexivity|]. simpl. constructor.
      - inversion H0; discriminate.
      - eexists. split; [reflexivity|]. simpl. inversion H0; assumption. }
    destruct (Hstep (String.eqb (lower (strip cell)) (lower (strip (Title w))))
                i (ei + 1)%nat nw ws Hf) as (ws1 & -> & Hf1).
    destruct (Hstep (String.eqb (lower (strip cell)) (lower (strip (Title l))))
                i (ei + 1)%nat nl ws1 Hf1) as (ws2 & -> & Hf2).
    apply IH; [|exact Hf2].
    intros r Hr. apply Hrows. right. exact Hr.
Qed.

(** X10. Whatever happens to the writes, a vote touches the sheet only
    through [update_cell] calls on the rating column of data rows (never
    the header row) whose trimmed, lowercased title cell is the winner's
    title, writing the winner's new rating, or the loser's, writing the
    loser's. *)
Theorem vote_writes_are_targeted
    (df : list Movie) (ws : Worksheet) (winner loser : Movie) (h : Handled) :
  process_vote df ws winner loser = inr h ->
  exists header rows title_idx elo_idx new,
    cells ws = header :: rows /\
    option_map normalized (header !! title_idx) = Some "title"%string /\
    option_map normalized (header !! elo_idx) = Some "elo"%string /\
    calls (ws_after h) = new ++ calls ws /\
    Forall
      (targeted 2 rows title_idx elo_idx winner loser
         (fst (new_ratings winner loser)) (snd (new_ratings winner loser)))
      new.
Proof.
  unfold process_vote.
  destruct (new_ratings winner loser) as [nw nl]. simpl fst. simpl snd.
  unfold persist_vote.
  destruct (cells ws) as [|header rows]; [discriminate|].
  destruct (index_of "title" _) as [ti|] eqn:Ht; [|discriminate].
  destruct (index_of "elo" _) as [ei|] eqn:He; [|discriminate].
  apply index_of_Some in Ht, He.
  rewrite lookup_map in Ht, He.
  destruct (persist_rows _ _ _ _ _ _ _ _ _) as [ws' res] eqn:Hp.
  destruct (persist_rows_calls _ _ _ _ _ _ _ _ _ _ _ Hp) as (new & Hc & Ht').
  intros H.
  exists header, rows, ti, ei, new.
  split; [reflexivity|].
  destruct res as [e|u]; inversion H; subst; simpl; auto.
Qed.

Lemma vote_writes_are_targeted_witness :
  exists header rows title_idx elo_idx new,
    cells failing_sheet = header :: rows /\
    option_map normalized (header !! title_idx) = Some "title"%string /\
    option_map normalized (header !! elo_idx) = Some "elo"%string /\
    [((2, 3)%nat, 1484); ((2, 3)%nat, 1516)] = new ++ calls failing_sheet /\
    Forall
      (targeted 2 rows title_idx elo_idx first_viewing second_viewing
         (fst (new_ratings first_viewing second_viewing))
         (snd (new_ratings first_viewing second_viewing)))
      new.
Proof.
  exact (vote_writes_are_targeted _ _ _ _ _ process_vote_failing_sheet).
Defined.

Lemma index_of_In (x : string) (l : list string) :
  In x l -> exists n, index_of x l = Some n /\ (n < length l)%nat.
Proof.
  intros Hin. destruct (index_of x l) as [n|] eqn:E.
  - exists n. split; [reflexivity|].
    apply index_of_Some in E. eapply lookup_lt_Some. exact E.
  - apply index_of_None in E. contradiction.
Qed.

(** X11. On a sheet whose header has a title and an elo column and whose
    rows are as long as the header, a vote during which no write raises is
    reported as a success, and the collection in memory is the updated
    one. *)
Theorem vote_without_fault_succeeds
    (df : list Movie) (ws : Worksheet) (winner loser : Movie)
    (header : list string) (rows : list (list string)) :
  cells ws = header :: rows ->
  In "title"%string (List.map normalized header) ->
  In "elo"%string (List.map normalized header) ->
  (forall row, In row rows -> (length header <= length row)%nat) ->
  Forall (eq None) (faults ws) ->
  exists h,
    process_vote df ws winner loser = inr h /\
    shown h = ShowSuccess (Title winner) /\
    df_after h = vote_in_memory df winner loser.
Proof.
  intros Hcells Ht He Hrows Hf.
  destruct (index_of_In _ _ Ht) as (ti & Hti & Hlt).
  destruct (index_of_In _ _ He) as (ei & Hei & _).
  rewrite length_map in Hlt.
  destruct (persist_rows_complete rows 2 ti ei winner loser
              (fst (new_ratings winner loser)) (snd (new_ratings winner loser)) ws)
    as [ws' Hp]; [|exact Hf|].
  { intros row Hrow. specialize (Hrows row Hrow). lia. }
  unfold process_vote, vote_in_memory.
  destruct (new_ratings winner loser) as [nw nl]. simpl fst in *. simpl snd in *.
  unfold persist_vote. rewrite Hcells.
  unfold normalized in Hti, Hei. rewrite Hti, Hei, Hp.
  eexists. split; [reflexivity|]. split; reflexivity.
Qed.

Lemma vote_without_fault_succeeds_witness :
  exists h,
    process_vote (load_movies two_viewings) sound_sheet
      first_viewing second_viewing = inr h /\
    shown h = ShowSuccess (Title first_viewing) /\
    df_after h
    = vote_in_memory (load_movies two_viewings) first_viewing second_viewing.
Proof.
  apply (vote_without_fault_succeeds (load_movies two_viewings) sound_sheet
           first_viewing second_viewing
           ["Title"; "director"; "elo"]%string
           [ ["Heat"; "Mann"; "1500"]%string;
             [" heat "; "Mann"; "1500"]%string;
             ["Big"; "Marshall"; "1500"]%string ]).
  - reflexivity.
  - vm_compute. auto.
  - vm_compute. auto.
  - intros row [<-|[<-|[<-|[]]]]; simpl; lia.
  - constructor.
Defined.


(** ** Further properties: the leaderboard *)

Lemma insert_desc_Sorted {A : Type} (key : A -> Z) (x : A) (l : list A) :
  Sorted (fun a b => key b <= key a) l ->
  Sorted (fun a b => key b <= key a) (insert_desc key x l).
Proof.
  induction 1 as [|y l Hs IH Hd]; simpl.
  - repeat constructor.
  - destruct (Z.leb_spec (key y) (key x)) as [Hle|Hlt].
    + constructor; [constructor; assumption|constructor; exact Hle].
    + constructor; [exact IH|].
      destruct Hd as [|z l Hz]; simpl.
      * constructor. lia.
      * destruct (key z <=? key x); constructor; [lia|assumption].
Qed.

Lemma sort_values_Sorted {A : Type} (key : A -> Z) (l : list A) :
  Sorted (fun a b => key b <= key a) (sort_values key l).
Proof.
  induction l as [|x l IH]; simpl; [constructor|].
  apply insert_desc_Sorted. exact IH.
Qed.

Lemma groupby_first_all_titles (df : list Movie) :
  List.map Title (groupby_first df) = sorted (remove_dups (List.map Title df)).
Proof.
  unfold groupby_first.
  assert (Hin : forall t, In t (sorted (remove_dups (List.map Title df))) ->
                          In t (List.map Title df)).
  { intros t Ht.
    rewrite In_sorted, <- list_elem_of_In, elem_of_remove_dups,
      list_elem_of_In in Ht. exact Ht. }
  revert Hin. generalize (sorted (remove_dups (List.map Title df))).
  induction l as [|t l IH]; intros Hin; simpl; [reflexivity|].
  destruct (proj1 (in_map_iff _ _ _) (Hin t (or_introl eq_refl))) as (r & Hr & Hrin).
  destruct (find_first (fun m => String.eqb (Title m) t) df r Hrin) as [m Hm];
    [apply String.eqb_eq; exact Hr|].
  rewrite Hm. simpl.
  destruct (find_some _ _ Hm) as [_ E]. apply String.eqb_eq in E.
  rewrite E. f_equal. apply IH. intros t' Ht'. apply Hin. right. exact Ht'.
Qed.

Lemma leaderboard_of_rows (df : list Movie) (g : string) (lb : list Entry) :
  leaderboard_df df g = Some lb ->
  exists rows,
    (forall m, In m rows -> In m df) /\
    lb = sort_values e_elo (List.map columns (groupby_first rows)).
Proof.
  unfold leaderboard_df. destruct (String.eqb g "Overall").
  - intros H. inversion H. exists df. auto.
  - destruct (genres_contains df g) as [mask|] eqn:Hmask; [|discriminate].
    destruct (genres_contains_mask df g mask Hmask) as (re & _ & Hrows).
    simpl. intros H. inversion H. rewrite Hrows. eexists. split; [|reflexivity].
    intros m Hm. apply filter_In in Hm. tauto.
Qed.

(** X13. Whatever the filter, a leaderboard lists each title at most once,
    in descending order of rating, and every entry shows the columns of a
    row of the collection. *)
Theorem leaderboard_is_ranked (df : list Movie) (g : string) (lb : list Entry) :
  leaderboard_df df g = Some lb ->
  NoDup (List.map e_Title lb) /\
  Sorted (fun a b => e_elo b <= e_elo a) lb /\
  Forall (fun e => exists m, In m df /\ e = columns m) lb.
Proof.
  intros H. destruct (leaderboard_of_rows df g lb H) as (rows & Hsub & ->).
  split; [|split].
  - rewrite (Permutation_map e_Title (sort_values_perm e_elo _)).
    rewrite List.map_map. simpl.
    change (List.map (fun x => Title x) (groupby_first rows))
      with (List.map Title (groupby_first rows)).
    apply groupby_first_titles.
  - apply sort_values_Sorted.
  - apply List.Forall_forall. intros e He.
    apply In_sort_values, in_map_iff in He as (m & <- & Hm).
    apply groupby_first_In in Hm as [Hm _]. eauto.
Qed.

Lemma leaderboard_is_ranked_witness :
  NoDup (List.map e_Title
           [ mkEntry "Big" "Marshall" "Comedy" 1500;
             mkEntry "Heat" "Mann" "Crime,Drama" 1500;
             mkEntry "heat" "Mann" "Crime" 1500 ]).
Proof.
  apply (leaderboard_is_ranked (load_movies two_viewings) "Overall").
  vm_compute. reflexivity.
Defined.

(** X14. The overall leaderboard always exists; it has one entry for each
    distinct stored title, and the entry of a title shows the first row
    with that title. *)
Theorem overall_leaderboard_entries (df : list Movie) :
  exists lb,
    leaderboard_df df "Overall" = Some lb /\
    length lb = length (remove_dups (List.map Title df)) /\
    (forall t, In t (List.map e_Title lb) <-> In t (List.map Title df)) /\
    Forall
      (fun e => exists m,
         List.find (fun r => String.eqb (Title r) (e_Title e)) df = Some m /\
         e = columns m)
      lb.
Proof.
  eexists. split; [reflexivity|].
  split; [|split].
  - rewrite (Permutation_length (sort_values_perm e_elo _)), length_map.
    rewrite <- (length_map Title), groupby_first_all_titles.
    apply Permutation_length, sorted_perm.
  - intros t.
    rewrite (Permutation_map e_Title (sort_values_perm e_elo _)) at 1.
    rewrite List.map_map. simpl.
    change (List.map (fun x => Title x) (groupby_first df))
      with (List.map Title (groupby_first df)).
    rewrite groupby_first_all_titles, In_sorted.
    rewrite <- !list_elem_of_In. apply elem_of_remove_dups.
  - apply List.Forall_forall. intros e He.
    apply In_sort_values, in_map_iff in He as (m & <- & Hm).
    apply groupby_first_In in Hm as [_ Hf]. exists m. auto.
Qed.

Lemma vote_keeps_titles (df : list Movie) (w l : Movie) :
  List.map Title (vote_in_memory df w l) = List.map Title df.
Proof.
  unfold vote_in_memory. rewrite assign_ratings_rows, List.map_map.
  apply map_ext. intros m.
  exact (proj1 (rate_row_frame _ _ _ _ m)).
Qed.

(** X15. A vote changes no title: the overall leaderboard after the vote
    lists the same titles as before, possibly in another order. *)
Theorem vote_keeps_leaderboard_titles (df : list Movie) (winner loser : Movie) :
  exists before after,
    leaderboard_df df "Overall" = Some before /\
    leaderboard_df (vote_in_memory df winner loser) "Overall" = Some after /\
    Permutation (List.map e_Title after) (List.map e_Title before).
Proof.
  do 2 eexists. split; [reflexivity|]. split; [reflexivity|].
  rewrite !(Permutation_map e_Title (sort_values_perm e_elo _)).
  rewrite !List.map_map. simpl.
  change (fun x : Movie => Title x) with Title.
  rewrite !groupby_first_all_titles, vote_keeps_titles. reflexivity.
Qed.

(** ** Further properties: genre labels and options *)

Lemma string_app_cons (c : ascii) (a b : string) :
  (String c a ++ b)%string = String c (a ++ b)%string.
Proof. reflexivity. Qed.

Lemma string_app_nil (b : string) : (EmptyString ++ b)%string = b.
Proof. reflexivity. Qed.

Lemma split_comma_head (s : string) :
  exists q qs b, split_comma s = q :: qs /\ s = (q ++ b)%string.
Proof.
  induction s as [|c t (q & qs & b & Hq & Hb)]; simpl.
  - exists EmptyString, [], EmptyString. auto.
  - destruct (Ascii.eqb c ",").
    + exists EmptyString, (split_comma t), (String c t). auto.
    + rewrite Hq. exists (String c q), qs, b.
      split; [reflexivity|]. rewrite ?string_app_cons, ?string_app_nil. f_equal. exact Hb.
Qed.

Lemma split_comma_piece (s p : string) :
  In p (split_comma s) -> exists a b, s = (a ++ p ++ b)%string.
Proof.
  induction s as [|c t IH]; simpl.
  - intros [<-|[]]. exists EmptyString, EmptyString. reflexivity.
  - destruct (Ascii.eqb c ",").
    + intros [<-|Hp].
      * exists EmptyString, (String c t). reflexivity.
      * destruct (IH Hp) as (a & b & ->). exists (String c a), b. reflexivity.
    + destruct (split_comma_head t) as (q & qs & b & Hq & Hb).
      rewrite Hq in IH |- *. intros [<-|Hp].
      * exists EmptyString, b. rewrite ?string_app_cons, ?string_app_nil. f_equal. exact Hb.
      * destruct (IH (or_intror Hp)) as (a & b' & ->).
        exists (String c a), b'. reflexivity.
Qed.

Lemma lstrip_suffix (s : string) : exists a, s = (a ++ lstrip s)%string.
Proof.
  induction s as [|c t [a Ha]]; simpl.
  - exists EmptyString. reflexivity.
  - destruct (is_space c).
    + exists (String c a). rewrite ?string_app_cons, ?string_app_nil. f_equal. exact Ha.
    + exists EmptyString. reflexivity.
Qed.

Lemma rstrip_prefix (s : string) : exists b, s = (rstrip s ++ b)%string.
Proof.
  induction s as [|c t [b Hb]]; simpl.
  - exists EmptyString. reflexivity.
  - destruct (rstrip t) as [|d t'] eqn:E.
    + destruct (is_space c).
      * exists (String c t). reflexivity.
      * exists b. rewrite ?string_app_cons, ?string_app_nil. f_equal. exact Hb.
    + exists b. rewrite ?string_app_cons, ?string_app_nil. f_equal. exact Hb.
Qed.

Lemma string_app_assoc (a b c : string) :
  ((a ++ b) ++ c = a ++ b ++ c)%string.
Proof.
  induction a as [|x a IH]; [reflexivity|].
  rewrite !string_app_cons, IH. reflexivity.
Qed.

Lemma strip_piece (p : string) : exists a b, p = (a ++ strip p ++ b)%string.
Proof.
  unfold strip.
  destruct (lstrip_suffix p) as [a Ha].
  destruct (rstrip_prefix (lstrip p)) as [b Hb].
  exists a, b. rewrite <- Hb. exact Ha.
Qed.

Lemma lower_app (a b : string) : lower (a ++ b) = (lower a ++ lower b)%string.
Proof.
  induction a as [|x a IH]; [reflexivity|].
  rewrite string_app_cons. simpl lower. rewrite string_app_cons, IH. reflexivity.
Qed.

Lemma starts_with_app (p b : string) : starts_with p (p ++ b) = true.
Proof.
  induction p as [|x p IH]; [reflexivity|].
  rewrite string_app_cons. simpl. rewrite Ascii.eqb_refl, IH. reflexivity.
Qed.

Lemma is_substring_app (a p b : string) : is_substring p (a ++ p ++ b) = true.
Proof.
  induction a as [|x a IH].
  - rewrite string_app_nil.
    destruct (p ++ b)%string eqn:E; simpl; rewrite <- E, starts_with_app; reflexivity.
  - rewrite string_app_cons. simpl. rewrite IH. apply orb_true_r.
Qed.

Lemma token_is_ci_substring (s p : string) :
  In p (split_comma s) -> ci_substring (strip p) s = true.
Proof.
  intros Hp.
  destruct (split_comma_piece s p Hp) as (a & b & ->).
  destruct (strip_piece p) as (a' & b' & Hs).
  unfold ci_substring.
  rewrite Hs at 2.
  rewrite !string_app_assoc. rewrite <- (string_app_assoc a a').
  rewrite !lower_app. apply is_substring_app.
Qed.

Lemma literal_label_matches (df : list Movie) (g : string) :
  In g (genre_labels df) -> no_special g = true -> has_match df g = true.
Proof.
  intros Hg Hlit. apply genre_labels_In in Hg as (m & piece & Hm & Hp & ->).
  destruct (re_compile_literal _ Hlit) as (re & Hre & Hmatch).
  rewrite (has_match_compiled df _ re Hre).
  apply existsb_exists. exists m. split; [exact Hm|].
  rewrite (re_search_literal re _ _ Hmatch).
  apply token_is_ci_substring. exact Hp.
Qed.

Lemma top_labels (df : list Movie) (out : list (string * Movie)) :
  get_top_movies_by_genre df = Some out ->
  List.map fst out = List.filter (has_match df) (genre_labels df) /\
  Forall (champion df) out.
Proof. intros H. apply top_movies_loop_spec. exact H. Qed.

(** X16. [get_top_movies_by_genre] lists each genre label at most once,
    and every film it lists is a row of the collection. *)
Theorem top_movies_one_per_label (df : list Movie) (out : list (string * Movie)) :
  get_top_movies_by_genre df = Some out ->
  NoDup (List.map fst out) /\ Forall (fun gm => In (snd gm) df) out.
Proof.
  intros H. destruct (top_labels df out H) as [Hl Hc]. split.
  - rewrite Hl. apply NoDup_ListNoDup, List.NoDup_filter, NoDup_ListNoDup.
    apply genre_labels_NoDup.
  - eapply Forall_impl; [exact Hc|]. intros gm Hgm. exact (proj1 Hgm).
Qed.

Lemma top_movies_one_per_label_witness :
  NoDup (List.map fst [ ("Action"%string, film_B); ("Comedy"%string, film_C);
                        ("Drama"%string, film_A) ]).
Proof.
  exact (proj1 (top_movies_one_per_label [film_A; film_B; film_C] _
                  top_movies_example)).
Defined.





Lemma genre_labels_flat (df : list Movie) (g : string) :
  In g (genre_labels df) <->
  In g (flat_map (fun m => List.map strip (split_comma (genres m))) df).
Proof.
  unfold genre_labels.
  rewrite In_sorted, <- list_elem_of_In, elem_of_elements, elem_of_list_to_set.
  apply list_elem_of_In.
Qed.

Lemma all_genres_In (df : list Movie) (g : string) :
  g ∈ all_genres df <-> g <> EmptyString /\ In g (genre_labels df).
Proof.
  unfold all_genres.
  rewrite elem_of_list_to_set, list_elem_of_In, filter_In, genre_labels_flat.
  rewrite negb_true_iff, String.eqb_neq. tauto.
Qed.

(** X18. The filter box offers "Overall" first and then, each once and in
    ascending order, exactly the non-empty labels that
    [get_top_movies_by_genre] goes through. *)
Theorem genre_options_are_labels (df : list Movie) :
  hd_error (genre_options df) = Some "Overall"%string /\
  NoDup (tl (genre_options df)) /\
  Sorted (fun a b => String.leb a b = true) (tl (genre_options df)) /\
  forall g, In g (tl (genre_options df)) <->
            g <> EmptyString /\ In g (genre_labels df).
Proof.
  unfold genre_options. simpl.
  split; [reflexivity|].
  split; [rewrite sorted_perm; apply NoDup_elements|].
  split; [apply sorted_Sorted|].
  intros g. rewrite In_sorted, <- list_elem_of_In, elem_of_elements.
  apply all_genres_In.
Qed.

(** X19. A genre offered by the filter box that has no character special
    in a regular expression always finds a film: the filtered leaderboard
    exists and is not empty, and [get_top_movies_by_genre], when it
    returns, lists that genre. *)
Theorem offered_genre_finds_a_film (df : list Movie) (g : string) :
  In g (tl (genre_options df)) -> g <> "Overall"%string -> no_special g = true ->
  (exists lb e, leaderboard_df df g = Some lb /\ In e lb) /\
  (forall out, get_top_movies_by_genre df = Some out -> In g (List.map fst out)).
Proof.
  intros Hopt Hg Hlit.
  unfold genre_options in Hopt. simpl in Hopt.
  rewrite In_sorted, <- list_elem_of_In, elem_of_elements, all_genres_In in Hopt.
  destruct Hopt as [_ Hlabel].
  pose proof (literal_label_matches df g Hlabel Hlit) as Hmatch.
  split.
  - destruct (re_compile_literal g Hlit) as (re & Hre & _).
    rewrite (has_match_compiled df g re Hre) in Hmatch.
    apply existsb_exists in Hmatch as (r & Hr & Hs).
    unfold leaderboard_df, genres_contains.
    apply String.eqb_neq in Hg. rewrite Hg, Hre. simpl.
    rewrite boolean_index_filter.
    assert (Hin : In r (List.filter (fun m => re_search re (genres m)) df))
      by (apply filter_In; auto).
    destruct (groupby_first_covers _ r Hin) as (m & Hm & _).
    eexists. exists (columns m). split; [reflexivity|].
    apply In_sort_values, in_map. exact Hm.
  - intros out H. destruct (top_labels df out H) as [Hl _].
    rewrite Hl. apply filter_In. auto.
Qed.

Lemma offered_genre_finds_a_film_witness :
  exists lb e, leaderboard_df [film_A; film_B; film_C] "Drama" = Some lb /\ In e lb.
Proof.
  apply (offered_genre_finds_a_film [film_A; film_B; film_C] "Drama").
  - vm_compute. auto.
  - discriminate.
  - reflexivity.
Defined.

(** ** Further properties: the sheet after a vote, and the banner *)

Lemma update_cell_quiet (row col : nat) (value : Z) (ws : Worksheet)
    (pre : list (list string)) (r : list string) (rest : list (list string)) :
  Forall (eq None) (faults ws) ->
  cells ws = pre ++ r :: rest ->
  length pre = (row - 1)%nat ->
  exists ws',
    update_cell row col value ws = (ws', inr tt) /\
    Forall (eq None) (faults ws') /\
    cells ws'
    = pre ++ <[(col - 1)%nat := NilZero.string_of_int (Z.to_int value)]> r :: rest.
Proof.
  intros Hf Hc Hlen. unfold update_cell.
  assert (Halter : forall f : list string -> list string,
            alter f (row - 1)%nat (cells ws) = pre ++ f r :: rest).
  { intros f. rewrite Hc, <- Hlen.
    replace (length pre) with (length pre + 0)%nat by lia.
    rewrite alter_app_r. reflexivity. }
  destruct (faults ws) as [|[e|] more] eqn:E.
  - eexists. split; [reflexivity|]. simpl. split; [constructor|apply Halter].
  - inversion Hf; discriminate.
  - eexists. split; [reflexivity|]. simpl.
    split; [inversion Hf; assumption|apply Halter].
Qed.

Lemma persist_rows_cells (rows : list (list string)) (i ti ei : nat)
    (w l : Movie) (nw nl : Z) (ws : Worksheet) (pre : list (list string)) :
  (forall row, In row rows -> (ti < length row)%nat) ->
  Forall (eq None) (faults ws) ->
  cells ws = pre ++ rows ->
  length pre = (i - 1)%nat -> (1 <= i)%nat ->
  exists ws',
    persist_rows i rows ti ei w l nw nl ws = (ws', inr tt) /\
    cells ws' = pre ++ List.map (saved_row ti ei w l nw nl) rows.
Proof.
  revert i ws pre. induction rows as [|row rest IH];
    intros i ws pre Hrows Hf Hc Hlen Hi; simpl.
  - unfold ret. eexists. split; [reflexivity|exact Hc].
  - destruct (lookup_lt_is_Some_2 row ti (Hrows row (or_introl eq_refl)))
      as [cell Hcell].
    rewrite Hcell. unfold and_then, bind, saved_row. rewrite Hcell.
    unfold normalized.
    set (bw := String.eqb (lower (strip cell)) (lower (strip (Title w)))).
    set (bl := String.eqb (lower (strip cell)) (lower (strip (Title l)))).
    set (sw := NilZero.string_of_int (Z.to_int nw)).
    set (sl := NilZero.string_of_int (Z.to_int nl)).
    assert (H1 : exists ws1,
               when bw (update_cell i (ei + 1) nw) ws = (ws1, inr tt) /\
               Forall (eq None) (faults ws1) /\
               cells ws1 = pre ++ (if bw then <[ei := sw]> row else row) :: rest).
    { destruct bw; simpl.
      - destruct (update_cell_quiet i (ei + 1) nw ws pre row rest Hf Hc Hlen)
          as (ws1 & E1 & F1 & C1).
        replace (ei + 1 - 1)%nat with ei in C1 by lia. eauto.
      - unfold ret. eauto. }
    destruct H1 as (ws1 & -> & Hf1 & Hc1).
    set (row1 := if bw then <[ei := sw]> row else row) in *.
    assert (H2 : exists ws2,
               when bl (update_cell i (ei + 1) nl) ws1 = (ws2, inr tt) /\
               Forall (eq None) (faults ws2) /\
               cells ws2 = pre ++ (if bl then <[ei := sl]> row1 else row1) :: rest).
    { destruct bl; simpl.
      - destruct (update_cell_quiet i (ei + 1) nl ws1 pre row1 rest Hf1 Hc1 Hlen)
          as (ws2 & E2 & F2 & C2).
        replace (ei + 1 - 1)%nat with ei in C2 by lia. eauto.
      - unfold ret. eauto. }
    destruct H2 as (ws2 & -> & Hf2 & Hc2).
    set (row2 := if bl then <[ei := sl]> row1 else row1) in *.
    destruct (IH (S i) ws2 (pre ++ [row2])) as (ws' & Hp & Hc').
    + intros r Hr. apply Hrows. right. exact Hr.
    + exact Hf2.
    + rewrite Hc2, <- app_assoc. reflexivity.
    + rewrite length_app. simpl. lia.
    + lia.
    + exists ws'. split; [exact Hp|].
      rewrite Hc', <- app_assoc. reflexivity.
Qed.

(** X20. After a vote during which no write raises, on a sheet whose
    header has a title and an elo column and whose rows are as long as the
    header, the header is untouched and each data row is the row saved:
    its rating cell holds the new rating of the winner or of the loser
    when its title cell is theirs, and the row is as before otherwise. *)
Theorem vote_saves_ratings
    (df : list Movie) (ws : Worksheet) (winner loser : Movie)
    (header : list string) (rows : list (list string)) :
  cells ws = header :: rows ->
  In "title"%string (List.map normalized header) ->
  In "elo"%string (List.map normalized header) ->
  (forall row, In row rows -> (length header <= length row)%nat) ->
  Forall (eq None) (faults ws) ->
  exists h title_idx elo_idx,
    process_vote df ws winner loser = inr h /\
    option_map normalized (header !! title_idx) = Some "title"%string /\
    option_map normalized (header !! elo_idx) = Some "elo"%string /\
    cells (ws_after h)
    = header ::
      List.map
        (saved_row title_idx elo_idx winner loser
           (fst (new_ratings winner loser)) (snd (new_ratings winner loser)))
        rows.
Proof.
  intros Hcells Ht He Hrows Hf.
  destruct (index_of_In _ _ Ht) as (ti & Hti & Hlt).
  destruct (index_of_In _ _ He) as (ei & Hei & _).
  rewrite length_map in Hlt.
  destruct (persist_rows_cells rows 2 ti ei winner loser
              (fst (new_ratings winner loser)) (snd (new_ratings winner loser))
              ws [header])
    as (ws' & Hp & Hc'); try assumption; try (simpl; lia).
  { intros row Hrow. specialize (Hrows row Hrow). lia. }
  unfold process_vote.
  destruct (new_ratings winner loser) as [nw nl]. simpl fst in *. simpl snd in *.
  unfold persist_vote. rewrite Hcells.
  unfold normalized in Hti, Hei. rewrite Hti, Hei, Hp.
  eexists. exists ti, ei. split; [reflexivity|].
  apply index_of_Some in Hti, Hei. rewrite lookup_map in Hti, Hei.
  simpl. auto.
Qed.

Lemma vote_saves_ratings_witness :
  exists h title_idx elo_idx,
    process_vote (load_movies two_viewings) sound_sheet
      first_viewing second_viewing = inr h /\
    option_map normalized
      (["Title"; "director"; "elo"]%string !! title_idx) = Some "title"%string /\
    option_map normalized
      (["Title"; "director"; "elo"]%string !! elo_idx) = Some "elo"%string /\
    cells (ws_after h)
    = ["Title"; "director"; "elo"]%string ::
      List.map
        (saved_row title_idx elo_idx first_viewing second_viewing
           (fst (new_ratings first_viewing second_viewing))
           (snd (new_ratings first_viewing second_viewing)))
        [ ["Heat"; "Mann"; "1500"]%string;
          [" heat "; "Mann"; "1500"]%string;
          ["Big"; "Marshall"; "1500"]%string ].
Proof.
  apply (vote_saves_ratings (load_movies two_viewings) sound_sheet
           first_viewing second_viewing).
  - reflexivity.
  - vm_compute. auto.
  - vm_compute. auto.
  - intros row [<-|[<-|[<-|[]]]]; simpl; lia.
  - constructor.
Defined.

(** X21. The fallback banner ("these two movies don't share a genre") is
    shown for a sampled pair only after all fifty attempts drew pairs
    without a common genre; the pair is then the one of the fifty-first
    draw. *)
Theorem fallback_banner_after_fifty
    (df : list Movie) (draws : nat -> nat * nat) (movie1 movie2 : Movie) :
  sample_movie_pair df draws = Some (movie1, movie2) ->
  shared_genres_banner movie1 movie2 = None ->
  (forall k, (k < 50)%nat -> draw_overlaps df draws k = false) /\
  sample2 df (draws 50%nat) = Some (movie1, movie2).
Proof.
  intros Hs Hb.
  assert (Hn : (2 <= length df)%nat).
  { destruct (Nat.lt_ge_cases (length df) 2) as [Hlt|Hge]; [|exact Hge].
    unfold sample_movie_pair in Hs.
    rewrite (sample_loop_too_few df draws 0 50 Hlt) in Hs. discriminate. }
  assert (Ho : genres_overlap (movie1, movie2) = false).
  { unfold shared_genres_banner in Hb. unfold genres_overlap. simpl.
    destruct (bool_decide _); [discriminate|reflexivity]. }
  destruct (sample_loop_outcome df draws 50 0 Hn) as (n & Hle & Heq & Hbefore & Hat).
  cbn [Nat.add] in Heq, Hbefore, Hat.
  unfold sample_movie_pair in Hs. rewrite Heq in Hs.
  destruct (Nat.eq_dec n 50%nat) as [->|Hne].
  - split; [exact Hbefore|exact Hs].
  - exfalso. assert (Hlt : (n < 50)%nat) by lia.
    specialize (Hat Hlt). unfold draw_overlaps in Hat.
    rewrite Hs in Hat. congruence.
Qed.

Lemma fallback_banner_after_fifty_witness :
  (forall k, (k < 50)%nat -> draw_overlaps disjoint_films late_change k = false) /\
  sample2 disjoint_films (late_change 50%nat)
  = Some (mkMovie "Big" "Marshall" "Comedy" "" 1500 [],
          mkMovie "Casablanca" "Curtiz" "Romance" "" 1500 []).
Proof.
  apply (fallback_banner_after_fifty disjoint_films late_change).
  - vm_compute. reflexivity.
  - vm_compute. reflexivity.
Defined.
